(** * sqlt: a tagged-template SQL interpolator, embedded and verified

    The repository ships two near-duplicate builds of the same library:

    - [Dist]   : the compiled TypeScript build (version 1.2.1), whose [Raw]
                 class carries an optional [params] array, whose [sql] has a
                 branch for [Raw] values and whose [transaction] has
                 [rollback];
    - [Legacy] : the older hand-written [src/index.js] (version 1.0.0), whose
                 [Raw] has no [params], whose [sql] has no branch for [Raw]
                 and whose [transaction] has only [add] and [commit].

    Both are embedded below, function by function, with the names of the
    source.  JavaScript values are a tagged union, strings are [string],
    arrays are [list] (of slots, where an array has holes), objects are
    association lists in the order [Object.entries] enumerates them, and the
    two mutable arrays of a transaction are an explicit state record. *)

From Stdlib Require Import String Ascii List ZArith Arith Bool Lia.
From Stdlib Require Import Permutation Sorted.
Import ListNotations.
Open Scope string_scope.

Set Warnings "-register-all".

(** ** JavaScript values *)

(** The values a caller can interpolate.  Numbers are only ever passed
    through (never computed with, never printed), so an integer payload
    stands for them.  An object is the list of its own enumerable
    string-keyed entries, in the order [Object.entries] yields them.  A [Raw]
    instance has the fields [value] and [params]; [params = None] is the
    JavaScript [undefined] of a [Raw] built without bound values.  [VArr]
    is an array without holes; [VSparse] is an array given slot by slot,
    [None] being a hole (as in [[1, , 3]]). *)
Inductive Value : Type :=
| VUndefined
| VNull
| VBool (b : bool)
| VNum (n : Z)
| VStr (s : string)
| VArr (elems : list Value)
| VObj (entries : list (string * Value))
| VRaw (value : string) (params : option (list Value))
| VSparse (slots : list (option Value)).

(** A statement [{ query, params }]. *)
Definition Statement : Type := (string * list Value)%type.

Definition query (s : Statement) : string := fst s.
Definition params (s : Statement) : list Value := snd s.

(** ** The JavaScript library functions the code calls *)

Module Js.

(** [values[i]]: reading past the end of an array yields [undefined]. *)
Definition at_index (values : list Value) (i : nat) : Value :=
  nth i values VUndefined.

(** [String.prototype.includes]. *)
Fixpoint includes (s needle : string) : bool :=
  if prefix needle s then true
  else match s with
       | EmptyString => false
       | String _ rest => includes rest needle
       end.

(** [Array.prototype.join] on an array of strings. *)
Definition join (parts : list string) (sep : string) : string :=
  String.concat sep parts.

(** [Array.prototype.reduce] with the three-argument callback
    [(accumulator, element, index)] and an initial value. *)
Fixpoint reduce_from {A B : Type} (f : B -> A -> nat -> B)
         (i : nat) (xs : list A) (acc : B) : B :=
  match xs with
  | [] => acc
  | x :: rest => reduce_from f (S i) rest (f acc x i)
  end.

Definition reduce {A B : Type} (f : B -> A -> nat -> B)
           (xs : list A) (init : B) : B :=
  reduce_from f 0 xs init.

(** [Array.prototype.flatMap]. *)
Definition flatMap {A B : Type} (f : A -> list B) (xs : list A) : list B :=
  flat_map f xs.

(** [Array.prototype.map] with a callback that ignores its arguments, on an
    array with holes: the callback is not called for a hole, and the hole
    stays. *)
Definition map_const {A B : Type} (b : B) (slots : list (option A))
  : list (option B) :=
  map (fun slot => match slot with Some _ => Some b | None => None end) slots.

(** [Array.prototype.join] on an array of strings with holes: a hole is
    printed as the empty string. *)
Definition join_slots (parts : list (option string)) (sep : string) : string :=
  String.concat sep
    (map (fun slot => match slot with Some part => part | None => "" end) parts).

(** Spreading an array with holes ([...value]): a hole is read as
    [undefined]. *)
Definition spread (slots : list (option Value)) : list Value :=
  map (fun slot => match slot with Some v => v | None => VUndefined end) slots.

(** Whether a property key is an array index: the decimal writing, without
    a sign or superfluous zeros, of an integer from 0 to 2^32 - 2. *)
Definition digit (c : ascii) : option N :=
  let n := N_of_ascii c in
  if (N.leb 48 n && N.leb n 57)%bool then Some (n - 48)%N else None.

Fixpoint digits_value (acc : N) (s : string) : option N :=
  match s with
  | EmptyString => Some acc
  | String c rest =>
      match digit c with
      | Some d => digits_value (10 * acc + d)%N rest
      | None => None
      end
  end.

Definition array_index (key : string) : option N :=
  match key with
  | EmptyString => None
  | String c rest =>
      if (Ascii.eqb c "0" && negb (String.eqb rest ""))%bool then None
      else match digits_value 0 key with
           | Some n => if N.ltb n 4294967295 then Some n else None
           | None => None
           end
  end.

(** The own property keys of an ordinary object are enumerated array
    indices first, in ascending numeric order, then the other string keys
    in the order in which the properties were created. *)
Fixpoint insert_indexed {A : Type} (x : N * A) (sorted : list (N * A))
  : list (N * A) :=
  match sorted with
  | [] => [x]
  | y :: rest =>
      if N.leb (fst x) (fst y) then x :: y :: rest
      else y :: insert_indexed x rest
  end.

Fixpoint sort_indexed {A : Type} (xs : list (N * A)) : list (N * A) :=
  match xs with
  | [] => []
  | x :: rest => insert_indexed x (sort_indexed rest)
  end.

Definition indexed {A : Type} (props : list (string * A)) : list (N * (string * A)) :=
  flat_map (fun prop => match array_index (fst prop) with
                        | Some n => [(n, prop)]
                        | None => []
                        end) props.

Definition named {A : Type} (props : list (string * A)) : list (string * A) :=
  filter (fun prop => match array_index (fst prop) with
                      | Some _ => false
                      | None => true
                      end) props.

(** [Object.entries] of the object whose properties were created in the
    order [props] (each key once). *)
Definition entries {A : Type} (props : list (string * A)) : list (string * A) :=
  (map snd (sort_indexed (indexed props)) ++ named props)%list.

(** The object whose properties were created in the order [props]. *)
Definition object (props : list (string * Value)) : Value :=
  VObj (entries props).

End Js.

(** [typeof value === "string" && value.includes("sql`")]. *)
Definition is_conditional (value : Value) : bool :=
  match value with
  | VStr s => Js.includes s "sql`"
  | _ => false
  end.

(** ** Method calls on the object a [transaction()] returns *)

Declare Scope call_scope.
Delimit Scope call_scope with call.

(** The two arrays [queries] and [params] captured by the methods. *)
Record Tx : Type := mkTx { queries : list string; tx_params : list Value }.

(** What a method that rejected a call would throw.  No method of the object
    [transaction()] returns contains a [throw], so it is never raised. *)
Inductive Error : Type := InvalidState.

(** How a method call ends: it returns a value and leaves the arrays in
    some state, or it throws. *)
Inductive Outcome (A : Type) : Type :=
| Returns (result : A) (after : Tx)
| Throws (e : Error).
Arguments Returns {A} result after.
Arguments Throws {A} e.

Definition Call (A : Type) : Type := Tx -> Outcome A.

Definition ret {A : Type} (a : A) : Call A := fun st => Returns a st.

Definition bind {A B : Type} (c : Call A) (k : A -> Call B) : Call B :=
  fun st =>
    match c st with
    | Returns a st' => k a st'
    | Throws e => Throws e
    end.

Notation "c1 ;; c2" := (bind c1 (fun _ => c2))
  (at level 100, c2 at level 200, right associativity) : call_scope.

(** ** The compiled TypeScript build *)

Module Dist.

(** [raw(value, params)]: [new Raw(value, params)]. *)
Definition raw (value : string) (params : option (list Value)) : Value :=
  VRaw value params.

(** The callback of [strings.reduce] in [sql].  The accumulator [result]
    and the captured array [params] are threaded together as one pair. *)
Definition sql_step (values : list Value) (acc : Statement)
           (str : string) (i : nat) : Statement :=
  let '(result, params) := acc in
  let value := Js.at_index values i in
  if is_conditional value then (result, params)
  else
    match value with
    | VUndefined | VNull => (result ++ str, params)
    | VRaw v _ => ((result ++ str) ++ v, params)
    | VArr elems =>
        let placeholders := Js.join (map (fun _ => "?") elems) ", " in
        ((result ++ str) ++ ("(" ++ placeholders ++ ")"), (params ++ elems)%list)
    | VSparse slots =>
        let placeholders := Js.join_slots (Js.map_const "?" slots) ", " in
        ((result ++ str) ++ ("(" ++ placeholders ++ ")"),
         (params ++ Js.spread slots)%list)
    | VObj entries =>
        let placeholders :=
          Js.join (map (fun '(key, _) => key ++ " = ?") entries) ", " in
        ((result ++ str) ++ placeholders, (params ++ map snd entries)%list)
    | VBool _ | VNum _ | VStr _ =>
        ((result ++ str) ++ "?", (params ++ [value])%list)
    end.

(** [sql(strings, ...values)]. *)
Definition sql (strings : list string) (values : list Value) : Statement :=
  Js.reduce (sql_step values) strings ("", []).

(** [caseWhen(field, cases)]. *)
Definition caseWhen (field : string) (cases : list (string * Value)) : Value :=
  let conditions :=
    Js.join (map (fun _ => "WHEN " ++ field ++ " = ? THEN ?") cases) " " in
  let params :=
    Js.flatMap (fun '(condition, result) => [VStr condition; result]) cases in
  raw ("CASE " ++ conditions ++ " END") (Some params).

(** *** [transaction()] *)

(** In this build [transaction] and its three methods are [async]; none
    awaits anything, so each promise resolves at once with the outcome
    given here. *)

(** The arrays of a fresh [transaction()]. *)
Definition transaction : Tx := mkTx [] [].

(** [add(strings, ...values)]. *)
Definition add (strings : list string) (values : list Value) : Call unit :=
  fun st =>
    let '(query, queryParams) := sql strings values in
    Returns tt (mkTx (queries st ++ [query])%list (tx_params st ++ queryParams)%list).

(** [commit()].  The statement returned holds the array [params] itself;
    the model gives its contents at the time of the call. *)
Definition commit : Call Statement :=
  fun st => Returns (Js.join (queries st) "; ", tx_params st) st.

(** [rollback()]: both arrays are truncated to length 0. *)
Definition rollback : Call unit :=
  fun _ => Returns tt (mkTx [] []).

(** [add] called once per template, in order. *)
Fixpoint add_all (templates : list (list string * list Value)) : Call unit :=
  match templates with
  | [] => ret tt
  | (strings, values) :: rest => (add strings values ;; add_all rest)%call
  end.

End Dist.

(** ** The hand-written [src/index.js] *)

Module Legacy.

(** [raw(value)]: [new Raw(value)]; the class has the single field
    [value]. *)
Definition raw (value : string) : Value := VRaw value None.

(** The callback of [strings.reduce] in [sql].  There is no branch for
    [Raw]: a [Raw] is not an array, the object branch excludes it, and it
    reaches the final [params.push(value)]. *)
Definition sql_step (values : list Value) (acc : Statement)
           (str : string) (i : nat) : Statement :=
  let '(result, params) := acc in
  let value := Js.at_index values i in
  if is_conditional value then (result, params)
  else
    match value with
    | VUndefined | VNull => (result ++ str, params)
    | VArr elems =>
        let placeholders := Js.join (map (fun _ => "?") elems) ", " in
        ((result ++ str) ++ ("(" ++ placeholders ++ ")"), (params ++ elems)%list)
    | VSparse slots =>
        let placeholders := Js.join_slots (Js.map_const "?" slots) ", " in
        ((result ++ str) ++ ("(" ++ placeholders ++ ")"),
         (params ++ Js.spread slots)%list)
    | VObj entries =>
        let placeholders :=
          Js.join (map (fun '(key, _) => key ++ " = ?") entries) ", " in
        ((result ++ str) ++ placeholders, (params ++ map snd entries)%list)
    | VBool _ | VNum _ | VStr _ | VRaw _ _ =>
        ((result ++ str) ++ "?", (params ++ [value])%list)
    end.

(** [sql(strings, ...values)]. *)
Definition sql (strings : list string) (values : list Value) : Statement :=
  Js.reduce (sql_step values) strings ("", []).

(** [caseWhen(field, cases)]: the fragment carries no bound values. *)
Definition caseWhen (field : string) (cases : list (string * Value)) : Value :=
  let conditions :=
    Js.join (map (fun _ => "WHEN " ++ field ++ " = ? THEN ?") cases) " " in
  raw ("CASE " ++ conditions ++ " END").

(** *** [transaction()]: [add] and [commit] only *)

(** The arrays of a fresh [transaction()]. *)
Definition transaction : Tx := mkTx [] [].

(** [add(strings, ...values)]. *)
Definition add (strings : list string) (values : list Value) : Call unit :=
  fun st =>
    let '(query, queryParams) := sql strings values in
    Returns tt (mkTx (queries st ++ [query])%list (tx_params st ++ queryParams)%list).

(** [commit()]. *)
Definition commit : Call Statement :=
  fun st => Returns (Js.join (queries st) "; ", tx_params st) st.

(** [add] called once per template, in order. *)
Fixpoint add_all (templates : list (list string * list Value)) : Call unit :=
  match templates with
  | [] => ret tt
  | (strings, values) :: rest => (add strings values ;; add_all rest)%call
  end.

End Legacy.

(** ** Notions used to state the properties *)

(** Two statements one after the other: texts concatenated, parameter
    lists concatenated. *)
Definition splice (a b : Statement) : Statement :=
  (query a ++ query b, (params a ++ params b)%list).

Definition empty : Statement := ("", []).

(** The text and the parameters [sql] appends for the value [v] alone: its
    callback run on an empty segment from the empty statement. *)
Definition dist_appended (v : Value) : Statement :=
  Dist.sql_step [v] empty "" 0.

Definition legacy_appended (v : Value) : Statement :=
  Legacy.sql_step [v] empty "" 0.

(** [n] placeholder markers separated by a comma and a space. *)
Fixpoint marks (n : nat) : string :=
  match n with
  | 0 => ""
  | 1 => "?"
  | S m => "?, " ++ marks m
  end.

(** [typeof value] is ["string"], ["number"] or ["boolean"]. *)
Definition is_scalar (v : Value) : bool :=
  match v with
  | VBool _ | VNum _ | VStr _ => true
  | _ => false
  end.

(** The query texts and the parameters of a list of templates, statement by
    statement. *)
Definition dist_queries (templates : list (list string * list Value)) : list string :=
  map (fun t => query (Dist.sql (fst t) (snd t))) templates.

Definition dist_params (templates : list (list string * list Value)) : list Value :=
  List.concat (map (fun t => params (Dist.sql (fst t) (snd t))) templates).

Definition legacy_queries (templates : list (list string * list Value)) : list string :=
  map (fun t => query (Legacy.sql (fst t) (snd t))) templates.

Definition legacy_params (templates : list (list string * list Value)) : list Value :=
  List.concat (map (fun t => params (Legacy.sql (fst t) (snd t))) templates).

(** The number of [?] characters of a text. *)
Fixpoint qmarks (s : string) : nat :=
  match s with
  | EmptyString => 0
  | String c rest => (if Ascii.eqb c "?" then 1 else 0) + qmarks rest
  end.

(** [value instanceof Raw]. *)
Definition is_raw (v : Value) : bool :=
  match v with
  | VRaw _ _ => true
  | _ => false
  end.

(** ** The helpers both builds share *)

(** [escape], [join], [orderBy], [groupBy] and [limit] read the same in
    [src/index.js] and in the compiled build (the two regular expressions
    of [escape] name the same ten characters); each of the four clause
    builders calls [raw] with one argument, which gives a [Raw] without
    bound values in either build. *)
Module Clauses.

(** The character class of the regular expression of [escape]: NUL,
    backspace, tab, Ctrl-Z, line feed, carriage return, double quote,
    single quote, backslash and percent. *)
Definition in_class (c : ascii) : bool :=
  Ascii.eqb c "000" || Ascii.eqb c "008" || Ascii.eqb c "009"
  || Ascii.eqb c "026" || Ascii.eqb c "010" || Ascii.eqb c "013"
  || Ascii.eqb c "034" || Ascii.eqb c "039" || Ascii.eqb c "\"
  || Ascii.eqb c "%".

(** The [switch] of the replacement callback of [escape]. *)
Definition replacement (c : ascii) : string :=
  if Ascii.eqb c "000" then "\0"
  else if Ascii.eqb c "008" then "\b"
  else if Ascii.eqb c "009" then "\t"
  else if Ascii.eqb c "026" then "\z"
  else if Ascii.eqb c "010" then "\n"
  else if Ascii.eqb c "013" then "\r"
  else if Ascii.eqb c "034" || Ascii.eqb c "039" || Ascii.eqb c "\"
          || Ascii.eqb c "%"
       then "\" ++ String c ""
  else String c "".

(** [escape(value)]: [value.replace(/[...]/g, callback)], every character
    of the class replaced by what the callback returns for it. *)
Fixpoint escape (value : string) : string :=
  match value with
  | EmptyString => ""
  | String c rest =>
      (if in_class c then replacement c else String c "") ++ escape rest
  end.

(** [join(joins, type = "INNER")]; [type = None] is the argument left
    out. *)
Definition join (joins : list (string * string)) (type : option string) : Value :=
  let type := match type with Some t => t | None => "INNER" end in
  let joinClauses :=
    Js.join (map (fun '(table, condition) =>
                    type ++ " JOIN " ++ table ++ " ON " ++ condition) joins)
            " " in
  Dist.raw joinClauses None.

(** [String.prototype.toUpperCase] on ASCII text: the letters [a] to [z]
    become [A] to [Z] and every other ASCII character stays.  JavaScript
    also maps letters outside ASCII, which this definition leaves as they
    are: it stands for the method on ASCII text only, and is applied below
    to ASCII text only. *)
Definition upper_char (c : ascii) : ascii :=
  let n := nat_of_ascii c in
  if Nat.leb 97 n && Nat.leb n 122 then ascii_of_nat (n - 32) else c.

Fixpoint toUpperCase (s : string) : string :=
  match s with
  | EmptyString => ""
  | String c rest => String (upper_char c) (toUpperCase rest)
  end.

(** The argument of [orderBy]: a string, or an object of directions. *)
Inductive Order : Type :=
| OrderText (order : string)
| OrderMap (order : list (string * string)).

(** [orderBy(order)]. *)
Definition orderBy (order : Order) : Value :=
  match order with
  | OrderText order => Dist.raw ("ORDER BY " ++ order) None
  | OrderMap order =>
      let clauses :=
        Js.join (map (fun '(field, direction) =>
                        field ++ " " ++ toUpperCase direction) order)
                ", " in
      Dist.raw ("ORDER BY " ++ clauses) None
  end.

(** The argument of [groupBy]: a string, or an array of strings. *)
Inductive Fields : Type :=
| FieldName (fields : string)
| FieldList (fields : list string).

(** [groupBy(fields)]. *)
Definition groupBy (fields : Fields) : Value :=
  let fieldList :=
    match fields with
    | FieldList fields => Js.join fields ", "
    | FieldName fields => fields
    end in
  Dist.raw ("GROUP BY " ++ fieldList) None.

(** [limit(limit, offset)]: only [offset !== undefined] is looked at. *)
Definition limit (limit offset : Value) : Value :=
  match offset with
  | VUndefined => Dist.raw "LIMIT ?" None
  | _ => Dist.raw "LIMIT ? OFFSET ?" None
  end.

End Clauses.

(** ** Further notions used to state properties *)

(** The fields [value] and [params] of a fragment. *)
Definition raw_value (v : Value) : string :=
  match v with
  | VRaw text _ => text
  | _ => ""
  end.

Definition raw_params (v : Value) : list Value :=
  match v with
  | VRaw _ (Some bound) => bound
  | _ => []
  end.

(** A text of ASCII characters only. *)
Fixpoint ascii_text (s : string) : bool :=
  match s with
  | EmptyString => true
  | String c rest => N.ltb (N_of_ascii c) 128 && ascii_text rest
  end.

(** The characters behind a backslash in what [escape] writes. *)
Definition is_escape_code (c : ascii) : bool :=
  Ascii.eqb c "0" || Ascii.eqb c "b" || Ascii.eqb c "t" || Ascii.eqb c "z"
  || Ascii.eqb c "n" || Ascii.eqb c "r" || Ascii.eqb c "034"
  || Ascii.eqb c "039" || Ascii.eqb c "\" || Ascii.eqb c "%".

(** A text in which a character of the class of [escape] stands only right
    behind a backslash that opens a two-character escape, and every
    backslash opens one. *)
Fixpoint well_escaped (s : string) : bool :=
  match s with
  | EmptyString => true
  | String c rest =>
      if Ascii.eqb c "\" then
        match rest with
        | EmptyString => false
        | String d rest' => is_escape_code d && well_escaped rest'
        end
      else negb (Clauses.in_class c) && well_escaped rest
  end.

(** The number of characters of the class of [escape] in a text. *)
Fixpoint class_count (s : string) : nat :=
  match s with
  | EmptyString => 0
  | String c rest => (if Clauses.in_class c then 1 else 0) + class_count rest
  end.

(** Reading the two-character escapes back. *)
Definition unescape_code (c : ascii) : ascii :=
  if Ascii.eqb c "0" then "000"%char
  else if Ascii.eqb c "b" then "008"%char
  else if Ascii.eqb c "t" then "009"%char
  else if Ascii.eqb c "z" then "026"%char
  else if Ascii.eqb c "n" then "010"%char
  else if Ascii.eqb c "r" then "013"%char
  else c.

Fixpoint unescape (s : string) : string :=
  match s with
  | EmptyString => ""
  | String c rest =>
      if Ascii.eqb c "\" then
        match rest with
        | EmptyString => String c ""
        | String d rest' => String (unescape_code d) (unescape rest')
        end
      else String c (unescape rest)
  end.

(** The parameters one interpolated value is bound as, in either build. *)
Definition dist_bound_values (v : Value) : list Value :=
  match v with
  | VArr elems => elems
  | VSparse slots => Js.spread slots
  | VObj entries => map snd entries
  | VBool _ | VNum _ => [v]
  | VStr s => if Js.includes s "sql`" then [] else [v]
  | VUndefined | VNull | VRaw _ _ => []
  end.

Definition legacy_bound_values (v : Value) : list Value :=
  match v with
  | VRaw _ _ => [v]
  | _ => dist_bound_values v
  end.

(** [value === undefined || value === null]. *)
Definition is_nullish (v : Value) : bool :=
  match v with
  | VUndefined | VNull => true
  | _ => false
  end.

(** The object [{ query, params }] a nested [sql] call evaluates to. *)
Definition statement_object (s : Statement) : Value :=
  VObj [("query", VStr (query s)); ("params", VArr (params s))].

(** One method call on an accumulator of the compiled build. *)
Inductive Op : Type :=
| OpAdd (strings : list string) (values : list Value)
| OpCommit
| OpRollback.

Definition dist_call (op : Op) : Call unit :=
  match op with
  | OpAdd strings values => Dist.add strings values
  | OpCommit => (Dist.commit ;; ret tt)%call
  | OpRollback => Dist.rollback
  end.

Fixpoint dist_calls (ops : list Op) : Call unit :=
  match ops with
  | [] => ret tt
  | op :: rest => (dist_call op ;; dist_calls rest)%call
  end.

(** The templates added since the last [rollback], given those pending
    before the calls. *)
Fixpoint pending (before : list (list string * list Value)) (ops : list Op)
  : list (list string * list Value) :=
  match ops with
  | [] => before
  | OpAdd strings values :: rest => pending (before ++ [(strings, values)])%list rest
  | OpCommit :: rest => pending before rest
  | OpRollback :: rest => pending [] rest
  end.

(** Two entries whose keys are array indices, the first index not above
    the second. *)
Definition index_ascending {A : Type} (a b : string * A) : Prop :=
  match Js.array_index (fst a), Js.array_index (fst b) with
  | Some m, Some n => (m <= n)%N
  | _, _ => False
  end.

(** ** Notions used to state the marker invariant *)

(** The [?] characters of the texts [sql] appends for the values that are
    not [Raw], given what the build appends for one value. *)
Definition nonraw_qmarks (appended : Value -> Statement) (vals : list Value) : nat :=
  list_sum (map (fun v => qmarks (query (appended v)))
                (filter (fun v => negb (is_raw v)) vals)).

(** The bound values the interpolated [Raw] fragments carry. *)
Definition carried_bound (vals : list Value) : nat :=
  list_sum (map (fun v => List.length (raw_params v)) (filter is_raw vals)).

(** The parameters [sql] appends for one value, in the compiled build. *)
Definition dist_bound (v : Value) : nat :=
  List.length (params (dist_appended v)).

(** An array with a hole. *)
Definition has_hole (v : Value) : bool :=
  match v with
  | VSparse slots =>
      existsb (fun slot => match slot with None => true | Some _ => false end) slots
  | _ => false
  end.

(** An object with a [?] in one of its keys. *)
Definition has_marked_key (v : Value) : bool :=
  match v with
  | VObj entries => existsb (fun e => negb (Nat.eqb (qmarks (fst e)) 0)) entries
  | _ => false
  end.

(** A [Raw] that carries at least one bound value. *)
Definition carries_bound (v : Value) : bool :=
  negb (Nat.eqb (List.length (raw_params v)) 0).

(** The [?] characters of the query that the caller wrote: those of the
    segments [sql] keeps and of the text of the [Raw] fragments. *)
Fixpoint written_qmarks (strs : list string) (vals : list Value) : nat :=
  match strs with
  | [] => 0
  | str :: strs' =>
      match vals with
      | [] => qmarks str + written_qmarks strs' []
      | v :: vals' =>
          (if is_conditional v then 0
           else qmarks str + (if is_raw v then qmarks (raw_value v) else 0))
          + written_qmarks strs' vals'
      end
  end.

(** ** The examples of the test suite and of the README *)

Example dist_sql_array :
  Dist.sql ["SELECT * FROM users WHERE id IN "; ""] [VArr [VNum 1; VNum 2; VNum 3]]
  = ("SELECT * FROM users WHERE id IN (?, ?, ?)", [VNum 1; VNum 2; VNum 3]).
Proof. reflexivity. Qed.

Example dist_sql_object :
  Dist.sql ["UPDATE users SET "; " WHERE id = 1"]
           [VObj [("name", VStr "John"); ("age", VNum 30)]]
  = ("UPDATE users SET name = ?, age = ? WHERE id = 1", [VStr "John"; VNum 30]).
Proof. reflexivity. Qed.

Example dist_sql_raw :
  Dist.sql ["SELECT * FROM users WHERE "; ""] [Dist.raw "created_at > NOW()" None]
  = ("SELECT * FROM users WHERE created_at > NOW()", []).
Proof. reflexivity. Qed.

Example legacy_sql_raw :
  Legacy.sql ["SELECT * FROM users WHERE "; ""] [Legacy.raw "created_at > NOW()"]
  = ("SELECT * FROM users WHERE ?", [VRaw "created_at > NOW()" None]).
Proof. reflexivity. Qed.

Example dist_caseWhen :
  Dist.caseWhen "status" [("active", VNum 1); ("inactive", VNum 0)]
  = VRaw "CASE WHEN status = ? THEN ? WHEN status = ? THEN ? END"
         (Some [VStr "active"; VNum 1; VStr "inactive"; VNum 0]).
Proof. reflexivity. Qed.

Example dist_transaction :
  (Dist.add ["INSERT INTO users (name) VALUES ("; ")"] [VStr "John"] ;;
   Dist.add ["INSERT INTO orders (user_id) VALUES ("; ")"] [VNum 1] ;;
   Dist.commit)%call Dist.transaction
  = Returns
      ("INSERT INTO users (name) VALUES (?); INSERT INTO orders (user_id) VALUES (?)",
       [VStr "John"; VNum 1])
      (mkTx ["INSERT INTO users (name) VALUES (?)";
             "INSERT INTO orders (user_id) VALUES (?)"]
            [VStr "John"; VNum 1]).
Proof. reflexivity. Qed.

(** ** Strings and statements under concatenation *)

Lemma append_nil_r (s : string) : s ++ "" = s.
Proof. induction s as [|c s IH]; simpl; [reflexivity | now rewrite IH]. Qed.

Lemma append_assoc (a b c : string) : (a ++ b) ++ c = a ++ (b ++ c).
Proof. induction a as [|x a IH]; simpl; [reflexivity | now rewrite IH]. Qed.

Lemma query_splice (a b : Statement) :
  query (splice a b) = query a ++ query b.
Proof. reflexivity. Qed.

Lemma params_splice (a b : Statement) :
  params (splice a b) = (params a ++ params b)%list.
Proof. reflexivity. Qed.

Lemma splice_empty_l (a : Statement) : splice empty a = a.
Proof. now destruct a. Qed.

Lemma splice_empty_r (a : Statement) : splice a empty = a.
Proof.
  destruct a as [q p]; unfold splice; simpl.
  now rewrite append_nil_r, app_nil_r.
Qed.

Lemma splice_assoc (a b c : Statement) :
  splice (splice a b) c = splice a (splice b c).
Proof.
  unfold splice; simpl. now rewrite append_assoc, <- app_assoc.
Qed.

(** ** A reduction whose callback only appends *)

(** Both [sql] functions reduce with a callback that leaves what was
    accumulated in place and appends to it something that depends only on
    the segment and on [values[i]].  This section derives, for any such
    callback, that templates compose: a template cut after a value is the
    splice of its two halves. *)
Section Appending.

Variable step : list Value -> Statement -> string -> nat -> Statement.

Hypothesis step_appends : forall values acc str i,
  step values acc str i
  = splice acc (step [Js.at_index values i] empty str 0).

Lemma reduce_from_splice values strs : forall i acc,
  Js.reduce_from (step values) i strs acc
  = splice acc (Js.reduce_from (step values) i strs empty).
Proof.
  induction strs as [|str strs IH]; intros i acc; simpl.
  - now rewrite splice_empty_r.
  - rewrite IH.
    rewrite (IH (S i) (step values empty str i)).
    rewrite (step_appends values acc), (step_appends values empty).
    now rewrite splice_empty_l, splice_assoc.
Qed.

Lemma reduce_from_shift v values strs : forall i acc,
  Js.reduce_from (step (v :: values)) (S i) strs acc
  = Js.reduce_from (step values) i strs acc.
Proof.
  induction strs as [|str strs IH]; intros i acc; simpl.
  - reflexivity.
  - rewrite IH. f_equal.
    now rewrite (step_appends (v :: values)), (step_appends values).
Qed.

Lemma reduce_cons v values str strs :
  Js.reduce (step (v :: values)) (str :: strs) empty
  = splice (step [v] empty str 0) (Js.reduce (step values) strs empty).
Proof.
  unfold Js.reduce; simpl.
  rewrite reduce_from_splice, reduce_from_shift.
  now rewrite (step_appends (v :: values)), splice_empty_l.
Qed.

Lemma reduce_app vals1 vals2 strs2 : forall strs1,
  List.length vals1 = List.length strs1 ->
  Js.reduce (step (vals1 ++ vals2)) (strs1 ++ strs2) empty
  = splice (Js.reduce (step vals1) strs1 empty)
           (Js.reduce (step vals2) strs2 empty).
Proof.
  induction vals1 as [|v vals1 IH]; intros [|str strs1] Hlen;
    simpl in Hlen; try discriminate.
  - simpl. unfold Js.reduce at 2; simpl. now rewrite splice_empty_l.
  - simpl. rewrite !reduce_cons, IH by congruence.
    now rewrite splice_assoc.
Qed.

(** One value in the middle of a template. *)
Lemma reduce_middle vals1 v vals2 strs1 str strs2 :
  List.length vals1 = List.length strs1 ->
  Js.reduce (step (vals1 ++ v :: vals2)) (strs1 ++ str :: strs2) empty
  = splice (Js.reduce (step vals1) strs1 empty)
           (splice (step [v] empty str 0)
                   (Js.reduce (step vals2) strs2 empty)).
Proof.
  intros Hlen. now rewrite reduce_app, reduce_cons.
Qed.

End Appending.

(** ** What one interpolation appends *)

Lemma dist_step_appends values acc str i :
  Dist.sql_step values acc str i
  = splice acc (Dist.sql_step [Js.at_index values i] empty str 0).
Proof.
  destruct acc as [result ps]. unfold Dist.sql_step, splice; simpl.
  destruct (Js.at_index values i) as [| |b|n|s|elems|entries|text bound|slots];
    simpl; try (now rewrite ?append_nil_r, ?app_nil_r, ?append_assoc).
  destruct (Js.includes s "sql`"); simpl;
    now rewrite ?append_nil_r, ?app_nil_r, ?append_assoc.
Qed.

Lemma legacy_step_appends values acc str i :
  Legacy.sql_step values acc str i
  = splice acc (Legacy.sql_step [Js.at_index values i] empty str 0).
Proof.
  destruct acc as [result ps]. unfold Legacy.sql_step, splice; simpl.
  destruct (Js.at_index values i) as [| |b|n|s|elems|entries|text bound|slots];
    simpl; try (now rewrite ?append_nil_r, ?app_nil_r, ?append_assoc).
  destruct (Js.includes s "sql`"); simpl;
    now rewrite ?append_nil_r, ?app_nil_r, ?append_assoc.
Qed.

(** A value that is not a conditional marker: the segment, then what the
    value appends. *)
Lemma dist_step_kept v str :
  is_conditional v = false ->
  Dist.sql_step [v] empty str 0 = splice (str, []) (dist_appended v).
Proof.
  intros Hc. unfold dist_appended, Dist.sql_step, splice.
  destruct v; simpl in *; rewrite ?Hc; simpl; now rewrite ?append_nil_r.
Qed.

Lemma legacy_step_kept v str :
  is_conditional v = false ->
  Legacy.sql_step [v] empty str 0 = splice (str, []) (legacy_appended v).
Proof.
  intros Hc. unfold legacy_appended, Legacy.sql_step, splice.
  destruct v; simpl in *; rewrite ?Hc; simpl; now rewrite ?append_nil_r.
Qed.

(** A conditional marker: nothing at all, the segment included. *)
Lemma dist_step_conditional v str :
  is_conditional v = true -> Dist.sql_step [v] empty str 0 = empty.
Proof.
  intros Hc. unfold Dist.sql_step.
  destruct v; simpl in *; try discriminate. now rewrite Hc.
Qed.

Lemma legacy_step_conditional v str :
  is_conditional v = true -> Legacy.sql_step [v] empty str 0 = empty.
Proof.
  intros Hc. unfold Legacy.sql_step.
  destruct v; simpl in *; try discriminate. now rewrite Hc.
Qed.

(** A value in the middle of a template, for either build. *)
Lemma dist_sql_middle vals1 v vals2 strs1 str strs2 :
  List.length vals1 = List.length strs1 ->
  is_conditional v = false ->
  Dist.sql (strs1 ++ str :: strs2) (vals1 ++ v :: vals2)
  = (query (Dist.sql strs1 vals1) ++ str ++ query (dist_appended v)
       ++ query (Dist.sql strs2 vals2),
     (params (Dist.sql strs1 vals1) ++ params (dist_appended v)
       ++ params (Dist.sql strs2 vals2))%list).
Proof.
  intros Hlen Hc. unfold Dist.sql.
  rewrite (reduce_middle _ dist_step_appends) by exact Hlen.
  rewrite dist_step_kept by exact Hc.
  unfold splice; simpl. now rewrite !append_assoc.
Qed.

Lemma legacy_sql_middle vals1 v vals2 strs1 str strs2 :
  List.length vals1 = List.length strs1 ->
  is_conditional v = false ->
  Legacy.sql (strs1 ++ str :: strs2) (vals1 ++ v :: vals2)
  = (query (Legacy.sql strs1 vals1) ++ str ++ query (legacy_appended v)
       ++ query (Legacy.sql strs2 vals2),
     (params (Legacy.sql strs1 vals1) ++ params (legacy_appended v)
       ++ params (Legacy.sql strs2 vals2))%list).
Proof.
  intros Hlen Hc. unfold Legacy.sql.
  rewrite (reduce_middle _ legacy_step_appends) by exact Hlen.
  rewrite legacy_step_kept by exact Hc.
  unfold splice; simpl. now rewrite !append_assoc.
Qed.

Lemma join_marks {A : Type} (xs : list A) :
  Js.join (map (fun _ => "?") xs) ", " = marks (List.length xs).
Proof.
  induction xs as [|x [|y xs] IH]; try reflexivity.
  change (Js.join (map (fun _ => "?") (x :: y :: xs)) ", ")
    with ("?" ++ ", " ++ Js.join (map (fun _ => "?") (y :: xs)) ", ").
  now rewrite IH.
Qed.

(** ** Interpolation of arrays, objects and scalars *)

Lemma dense_slots (elems : list Value) :
  Js.join_slots (Js.map_const "?" (map Some elems)) ", "
  = Js.join (map (fun _ => "?") elems) ", "
  /\ Js.spread (map Some elems) = elems.
Proof.
  unfold Js.join_slots, Js.map_const, Js.spread, Js.join.
  rewrite !map_map. split; [reflexivity | apply map_id].
Qed.

(** C5, as the code has it.  An array [[a1, ..., an]] without holes
    interpolated anywhere in a template adds, after the segment before it,
    an opening parenthesis, [n] markers separated by a comma and a space,
    and a closing parenthesis; its elements are added to the parameters in
    their order, between the parameters of what precedes and of what
    follows.  The empty array adds ["()"] and no parameter.  An array given
    slot by slot none of whose slots is a hole is interpolated in the same
    way.  Both builds agree. *)
Theorem sql_array_interpolation
        (strs1 strs2 : list string) (str : string)
        (vals1 vals2 elems : list Value) :
  List.length vals1 = List.length strs1 ->
  Dist.sql (strs1 ++ str :: strs2) (vals1 ++ VArr elems :: vals2)
  = (query (Dist.sql strs1 vals1) ++ str
       ++ "(" ++ marks (List.length elems) ++ ")"
       ++ query (Dist.sql strs2 vals2),
     (params (Dist.sql strs1 vals1) ++ elems
       ++ params (Dist.sql strs2 vals2))%list)
  /\ Legacy.sql (strs1 ++ str :: strs2) (vals1 ++ VArr elems :: vals2)
     = (query (Legacy.sql strs1 vals1) ++ str
          ++ "(" ++ marks (List.length elems) ++ ")"
          ++ query (Legacy.sql strs2 vals2),
        (params (Legacy.sql strs1 vals1) ++ elems
          ++ params (Legacy.sql strs2 vals2))%list)
  /\ Dist.sql [str; ""] [VArr []] = (str ++ "()", [])
  /\ Legacy.sql [str; ""] [VArr []] = (str ++ "()", [])
  /\ Dist.sql (strs1 ++ str :: strs2) (vals1 ++ VSparse (map Some elems) :: vals2)
     = Dist.sql (strs1 ++ str :: strs2) (vals1 ++ VArr elems :: vals2)
  /\ Legacy.sql (strs1 ++ str :: strs2) (vals1 ++ VSparse (map Some elems) :: vals2)
     = Legacy.sql (strs1 ++ str :: strs2) (vals1 ++ VArr elems :: vals2).
Proof.
  intros Hlen. destruct (dense_slots elems) as [Hjoin Hspread]. repeat split.
  - rewrite dist_sql_middle by (exact Hlen || reflexivity).
    unfold dist_appended; simpl.
    now rewrite join_marks, append_assoc.
  - rewrite legacy_sql_middle by (exact Hlen || reflexivity).
    unfold legacy_appended; simpl.
    now rewrite join_marks, append_assoc.
  - unfold Dist.sql, Js.reduce; simpl. now rewrite append_nil_r.
  - unfold Legacy.sql, Js.reduce; simpl. now rewrite append_nil_r.
  - rewrite !dist_sql_middle by (exact Hlen || reflexivity).
    unfold dist_appended, Dist.sql_step.
    cbn -[Js.join_slots Js.map_const Js.spread Js.join].
    now rewrite Hjoin, Hspread.
  - rewrite !legacy_sql_middle by (exact Hlen || reflexivity).
    unfold legacy_appended, Legacy.sql_step.
    cbn -[Js.join_slots Js.map_const Js.spread Js.join].
    now rewrite Hjoin, Hspread.
Qed.

Lemma sql_array_interpolation_witness :
  List.length [VNum 7] = List.length ["SELECT * FROM t WHERE a = "]
  /\ Dist.sql ["SELECT * FROM t WHERE a = "; " AND id IN "; " AND b = "; ""]
              [VNum 7; VArr [VNum 1; VNum 2; VNum 3]; VBool true]
     = ("SELECT * FROM t WHERE a = ? AND id IN (?, ?, ?) AND b = ?",
        [VNum 7; VNum 1; VNum 2; VNum 3; VBool true]).
Proof.
  split; [reflexivity|].
  exact (proj1 (sql_array_interpolation
                  ["SELECT * FROM t WHERE a = "] [" AND b = "; ""] " AND id IN "
                  [VNum 7] [VBool true] [VNum 1; VNum 2; VNum 3] eq_refl)).
Defined.

(** C5 as stated fails for an array with a hole: [[1, , 3]] has three
    slots, gets two markers around an empty place, and three parameters,
    the hole being read as [undefined]. *)
Lemma sql_array_interpolation_counterexample :
  Dist.sql ["SELECT * FROM users WHERE id IN "; ""]
           [VSparse [Some (VNum 1); None; Some (VNum 3)]]
  = ("SELECT * FROM users WHERE id IN (?, , ?)", [VNum 1; VUndefined; VNum 3])
  /\ Legacy.sql ["SELECT * FROM users WHERE id IN "; ""]
                [VSparse [Some (VNum 1); None; Some (VNum 3)]]
     = ("SELECT * FROM users WHERE id IN (?, , ?)", [VNum 1; VUndefined; VNum 3])
  /\ Dist.sql ["SELECT * FROM users WHERE id IN "; ""]
              [VSparse [Some (VNum 1); None; Some (VNum 3)]]
     <> ("SELECT * FROM users WHERE id IN (?, ?, ?)", [VNum 1; VUndefined; VNum 3]).
Proof. repeat split; discriminate. Qed.

(** An object given by the entries [Object.entries] yields, anywhere in a
    template. *)
Lemma sql_object_middle
      (strs1 strs2 : list string) (str : string)
      (vals1 vals2 : list Value) (entries : list (string * Value)) :
  List.length vals1 = List.length strs1 ->
  Dist.sql (strs1 ++ str :: strs2) (vals1 ++ VObj entries :: vals2)
  = (query (Dist.sql strs1 vals1) ++ str
       ++ Js.join (map (fun e => fst e ++ " = ?") entries) ", "
       ++ query (Dist.sql strs2 vals2),
     (params (Dist.sql strs1 vals1) ++ map snd entries
       ++ params (Dist.sql strs2 vals2))%list)
  /\ Legacy.sql (strs1 ++ str :: strs2) (vals1 ++ VObj entries :: vals2)
     = (query (Legacy.sql strs1 vals1) ++ str
          ++ Js.join (map (fun e => fst e ++ " = ?") entries) ", "
          ++ query (Legacy.sql strs2 vals2),
        (params (Legacy.sql strs1 vals1) ++ map snd entries
          ++ params (Legacy.sql strs2 vals2))%list).
Proof.
  intros Hlen.
  assert (Hmap : map (fun '(key, _) => key ++ " = ?") entries
                 = map (fun e : string * Value => fst e ++ " = ?") entries).
  { apply map_ext. now intros [k v]. }
  split.
  - rewrite dist_sql_middle by (exact Hlen || reflexivity).
    unfold dist_appended; simpl. now rewrite Hmap.
  - rewrite legacy_sql_middle by (exact Hlen || reflexivity).
    unfold legacy_appended; simpl. now rewrite Hmap.
Qed.

(** The order in which an object enumerates its properties. *)

Lemma insert_indexed_perm {A : Type} (x : N * A) (l : list (N * A)) :
  Permutation (Js.insert_indexed x l) (x :: l).
Proof.
  induction l as [|y l IH]; simpl; [reflexivity|].
  destruct (N.leb (fst x) (fst y)); [reflexivity|].
  rewrite IH. apply perm_swap.
Qed.

Lemma sort_indexed_perm {A : Type} (l : list (N * A)) :
  Permutation (Js.sort_indexed l) l.
Proof.
  induction l as [|x l IH]; simpl; [reflexivity|].
  rewrite insert_indexed_perm. now apply perm_skip.
Qed.

Lemma insert_indexed_sorted {A : Type} (x : N * A) (l : list (N * A)) :
  Sorted (fun a b => (fst a <= fst b)%N) l ->
  Sorted (fun a b => (fst a <= fst b)%N) (Js.insert_indexed x l).
Proof.
  induction 1 as [|y l Hsorted IH Hhd]; simpl.
  - repeat constructor.
  - destruct (N.leb (fst x) (fst y)) eqn:Hle.
    + apply N.leb_le in Hle. repeat constructor; assumption.
    + apply N.leb_gt in Hle. constructor; [exact IH|].
      destruct Hhd as [|z l Hyz]; simpl.
      * constructor. lia.
      * destruct (N.leb (fst x) (fst z)); constructor; [lia | exact Hyz].
Qed.

Lemma sort_indexed_sorted {A : Type} (l : list (N * A)) :
  Sorted (fun a b => (fst a <= fst b)%N) (Js.sort_indexed l).
Proof.
  induction l as [|x l IH]; simpl; [constructor|].
  now apply insert_indexed_sorted.
Qed.

Lemma indexed_index {A : Type} (props : list (string * A)) :
  Forall (fun x => Js.array_index (fst (snd x)) = Some (fst x)) (Js.indexed props).
Proof.
  unfold Js.indexed. induction props as [|p props IH]; simpl; [constructor|].
  destruct (Js.array_index (fst p)) eqn:E; simpl; [|exact IH].
  constructor; [exact E | exact IH].
Qed.

Lemma indexed_props {A : Type} (props : list (string * A)) :
  Permutation (map snd (Js.indexed props) ++ Js.named props) props.
Proof.
  unfold Js.indexed, Js.named. induction props as [|p props IH]; simpl; [reflexivity|].
  destruct (Js.array_index (fst p)); simpl.
  - now apply perm_skip.
  - rewrite <- Permutation_middle. now apply perm_skip.
Qed.

Lemma sorted_entries {A : Type} (l : list (N * (string * A))) :
  Forall (fun x => Js.array_index (fst (snd x)) = Some (fst x)) l ->
  Sorted (fun a b => (fst a <= fst b)%N) l ->
  Sorted index_ascending (map snd l).
Proof.
  intros Hinv Hsorted. induction Hsorted as [|x l Hsorted IH Hhd]; simpl.
  - constructor.
  - inversion Hinv as [|? ? Hx Hl]; subst. constructor; [now apply IH|].
    destruct Hhd as [|y l Hxy]; simpl; constructor.
    inversion Hl as [|? ? Hy _]; subst.
    unfold index_ascending. now rewrite Hx, Hy.
Qed.

Lemma entries_order {A : Type} (props : list (string * A)) :
  Permutation (Js.entries props) props
  /\ (exists front, Js.entries props = (front ++ Js.named props)%list
                    /\ Sorted index_ascending front
                    /\ Forall (fun e => Js.array_index (fst e) <> None) front)
  /\ ((forall e, In e props -> Js.array_index (fst e) = None) ->
      Js.entries props = props).
Proof.
  assert (Hinv : Forall (fun x => Js.array_index (fst (snd x)) = Some (fst x))
                        (Js.sort_indexed (Js.indexed props))).
  { eapply Permutation_Forall; [symmetry; apply sort_indexed_perm|].
    apply indexed_index. }
  split; [|split].
  - unfold Js.entries. rewrite sort_indexed_perm. apply indexed_props.
  - exists (map snd (Js.sort_indexed (Js.indexed props))).
    split; [reflexivity|]. split.
    + apply sorted_entries; [exact Hinv | apply sort_indexed_sorted].
    + rewrite Forall_map. eapply Forall_impl; [|exact Hinv].
      intros x Hx. simpl in Hx. congruence.
  - clear Hinv. intros Hnone.
    assert (Hboth : Js.indexed props = [] /\ Js.named props = props).
    { unfold Js.indexed, Js.named.
      induction props as [|p props IH]; [now split|].
      simpl. rewrite (Hnone p) by now left.
      destruct IH as [IHi IHn]; [intros e He; apply Hnone; now right|].
      simpl. now rewrite IHi, IHn. }
    destruct Hboth as [Hi Hn]. unfold Js.entries. now rewrite Hi, Hn.
Qed.

(** C6, as the code has it.  An object that is neither a [Raw] nor an
    array, interpolated anywhere in a template, adds after the segment
    before it the texts [key = ?] of its entries joined by a comma and a
    space, without parentheses, and adds the values of the entries to the
    parameters, both in the order in which [Object.entries] enumerates the
    object: the properties it was created with, each once, those whose key
    is an array index in front by ascending index, the others behind them
    in the order of their creation.  An object without such keys is
    enumerated in the order of creation.  Both builds agree. *)
Theorem sql_object_interpolation
        (strs1 strs2 : list string) (str : string)
        (vals1 vals2 : list Value) (props : list (string * Value)) :
  List.length vals1 = List.length strs1 ->
  Dist.sql (strs1 ++ str :: strs2) (vals1 ++ Js.object props :: vals2)
  = (query (Dist.sql strs1 vals1) ++ str
       ++ Js.join (map (fun e => fst e ++ " = ?") (Js.entries props)) ", "
       ++ query (Dist.sql strs2 vals2),
     (params (Dist.sql strs1 vals1) ++ map snd (Js.entries props)
       ++ params (Dist.sql strs2 vals2))%list)
  /\ Legacy.sql (strs1 ++ str :: strs2) (vals1 ++ Js.object props :: vals2)
     = (query (Legacy.sql strs1 vals1) ++ str
          ++ Js.join (map (fun e => fst e ++ " = ?") (Js.entries props)) ", "
          ++ query (Legacy.sql strs2 vals2),
        (params (Legacy.sql strs1 vals1) ++ map snd (Js.entries props)
          ++ params (Legacy.sql strs2 vals2))%list)
  /\ Permutation (Js.entries props) props
  /\ (exists front, Js.entries props = (front ++ Js.named props)%list
                    /\ Sorted index_ascending front
                    /\ Forall (fun e => Js.array_index (fst e) <> None) front)
  /\ ((forall e, In e props -> Js.array_index (fst e) = None) ->
      Js.entries props = props).
Proof.
  intros Hlen.
  destruct (sql_object_middle strs1 strs2 str vals1 vals2 (Js.entries props) Hlen)
    as [Hdist Hlegacy].
  destruct (entries_order props) as (Hperm & Hfront & Hnamed).
  unfold Js.object. repeat split; assumption.
Qed.

Lemma sql_object_interpolation_witness :
  (List.length (@nil Value) = List.length (@nil string)
   /\ forall e, In e [("name", VStr "John"); ("age", VNum 30)] ->
                Js.array_index (fst e) = None)
  /\ Dist.sql ["UPDATE users SET "; " WHERE id = "; ""]
              [Js.object [("name", VStr "John"); ("age", VNum 30)]; VNum 1]
     = ("UPDATE users SET name = ?, age = ? WHERE id = ?",
        [VStr "John"; VNum 30; VNum 1])
  /\ Js.entries [("name", VStr "John"); ("age", VNum 30)]
     = [("name", VStr "John"); ("age", VNum 30)].
Proof.
  assert (Hnone : forall e, In e [("name", VStr "John"); ("age", VNum 30)] ->
                            Js.array_index (fst e) = None).
  { intros e [<- | [<- | []]]; reflexivity. }
  split; [split; [reflexivity | exact Hnone]|].
  split.
  - exact (proj1 (sql_object_interpolation
                    [] [" WHERE id = "; ""] "UPDATE users SET "
                    [] [VNum 1] [("name", VStr "John"); ("age", VNum 30)]
                    eq_refl)).
  - exact (proj2 (proj2 (proj2 (proj2
             (sql_object_interpolation
                [] [" WHERE id = "; ""] "UPDATE users SET "
                [] [VNum 1] [("name", VStr "John"); ("age", VNum 30)]
                eq_refl)))) Hnone).
Defined.

(** C6 as stated fails: the object created with the keys [b], [2], [a],
    [1], in this order, is written with [1] and [2] in front, not in the
    order of insertion. *)
Lemma sql_object_interpolation_counterexample :
  Dist.sql ["UPDATE t SET "; ""]
           [Js.object [("b", VNum 10); ("2", VNum 20); ("a", VNum 30); ("1", VNum 40)]]
  = ("UPDATE t SET 1 = ?, 2 = ?, b = ?, a = ?",
     [VNum 40; VNum 20; VNum 10; VNum 30])
  /\ Legacy.sql ["UPDATE t SET "; ""]
                [Js.object [("b", VNum 10); ("2", VNum 20); ("a", VNum 30); ("1", VNum 40)]]
     = ("UPDATE t SET 1 = ?, 2 = ?, b = ?, a = ?",
        [VNum 40; VNum 20; VNum 10; VNum 30])
  /\ Dist.sql ["UPDATE t SET "; ""]
              [Js.object [("b", VNum 10); ("2", VNum 20); ("a", VNum 30); ("1", VNum 40)]]
     <> ("UPDATE t SET b = ?, 2 = ?, a = ?, 1 = ?",
         [VNum 10; VNum 20; VNum 30; VNum 40]).
Proof. repeat split; discriminate. Qed.

Example array_index_examples :
  Js.array_index "0" = Some 0%N /\ Js.array_index "42" = Some 42%N
  /\ Js.array_index "4294967294" = Some 4294967294%N
  /\ Js.array_index "4294967295" = None /\ Js.array_index "01" = None
  /\ Js.array_index "-1" = None /\ Js.array_index "1.5" = None
  /\ Js.array_index "" = None /\ Js.array_index "a1" = None.
Proof. repeat split. Qed.

(** C4, as the code has it.  A string, number or boolean that is not a
    conditional marker (a string containing [sql`]), interpolated anywhere in
    a template, adds exactly one marker after the segment before it and
    exactly one parameter, the value itself, between the parameters of what
    precedes and of what follows.  A boolean is such a value: it is bound as
    the boolean it is.  Both builds agree. *)
Theorem sql_scalar_interpolation
        (strs1 strs2 : list string) (str : string)
        (vals1 vals2 : list Value) (v : Value) (b : bool) :
  (List.length vals1 = List.length strs1 ->
   is_scalar v = true ->
   is_conditional v = false ->
   Dist.sql (strs1 ++ str :: strs2) (vals1 ++ v :: vals2)
   = (query (Dist.sql strs1 vals1) ++ str ++ "?"
        ++ query (Dist.sql strs2 vals2),
      (params (Dist.sql strs1 vals1) ++ [v]
        ++ params (Dist.sql strs2 vals2))%list)
   /\ Legacy.sql (strs1 ++ str :: strs2) (vals1 ++ v :: vals2)
      = (query (Legacy.sql strs1 vals1) ++ str ++ "?"
           ++ query (Legacy.sql strs2 vals2),
         (params (Legacy.sql strs1 vals1) ++ [v]
           ++ params (Legacy.sql strs2 vals2))%list))
  /\ Dist.sql [str; ""] [VBool b] = (str ++ "?", [VBool b])
  /\ Legacy.sql [str; ""] [VBool b] = (str ++ "?", [VBool b]).
Proof.
  split; [intros Hlen Hs Hc; split | split].
  - rewrite dist_sql_middle by assumption.
    destruct v; try discriminate; simpl in Hc;
      unfold dist_appended, Dist.sql_step; simpl; rewrite ?Hc; reflexivity.
  - rewrite legacy_sql_middle by assumption.
    destruct v; try discriminate; simpl in Hc;
      unfold legacy_appended, Legacy.sql_step; simpl; rewrite ?Hc; reflexivity.
  - unfold Dist.sql, Js.reduce; simpl. now rewrite append_nil_r.
  - unfold Legacy.sql, Js.reduce; simpl. now rewrite append_nil_r.
Qed.

Lemma sql_scalar_interpolation_witness :
  (List.length [VStr "John"] = List.length ["SELECT * FROM users WHERE name = "]
   /\ is_scalar (VBool true) = true
   /\ is_conditional (VBool true) = false)
  /\ Dist.sql ["SELECT * FROM users WHERE name = "; " AND active = "; " AND age = "; ""]
              [VStr "John"; VBool true; VNum 30]
     = ("SELECT * FROM users WHERE name = ? AND active = ? AND age = ?",
        [VStr "John"; VBool true; VNum 30]).
Proof.
  split; [repeat split|].
  exact (proj1 (proj1 (sql_scalar_interpolation
                         ["SELECT * FROM users WHERE name = "] [" AND age = "; ""]
                         " AND active = " [VStr "John"] [VNum 30]
                         (VBool true) true)
                      eq_refl eq_refl eq_refl)).
Defined.

(** C4 as stated fails: the string [sql`] is a string, yet interpolating it
    emits no marker and binds no parameter (and the segment before it is
    lost as well). *)
Lemma sql_scalar_interpolation_counterexample :
  is_scalar (VStr "sql`") = true
  /\ Dist.sql ["SELECT * FROM users WHERE name = "; ""] [VStr "sql`"] = ("", [])
  /\ Dist.sql ["SELECT * FROM users WHERE name = "; ""] [VStr "sql`"]
     <> ("SELECT * FROM users WHERE name = ?", [VStr "sql`"]).
Proof. repeat split; discriminate. Qed.

(** ** Conditional markers *)

(** A conditional marker anywhere in a template: the template is the splice
    of what precedes the segment before the marker and of what follows the
    marker; that segment is in neither. *)
Lemma sql_conditional_middle vals1 s vals2 strs1 str strs2 :
  List.length vals1 = List.length strs1 ->
  Js.includes s "sql`" = true ->
  Dist.sql (strs1 ++ str :: strs2) (vals1 ++ VStr s :: vals2)
  = splice (Dist.sql strs1 vals1) (Dist.sql strs2 vals2)
  /\ Legacy.sql (strs1 ++ str :: strs2) (vals1 ++ VStr s :: vals2)
     = splice (Legacy.sql strs1 vals1) (Legacy.sql strs2 vals2).
Proof.
  intros Hlen Hs. split.
  - unfold Dist.sql. rewrite (reduce_middle _ dist_step_appends) by exact Hlen.
    rewrite dist_step_conditional by exact Hs. now rewrite splice_empty_l.
  - unfold Legacy.sql. rewrite (reduce_middle _ legacy_step_appends) by exact Hlen.
    rewrite legacy_step_conditional by exact Hs. now rewrite splice_empty_l.
Qed.

(** C2.  The segment before a conditional marker is not appended: the
    callback returns the accumulated query as it was.  Here the text up to
    the marker is missing from the query, in both builds. *)
Theorem sql_conditional_drops_segment :
  Dist.sql ["SELECT * FROM users WHERE 1=1 "; " ORDER BY id"]
           [VStr "sql`AND role = 'admin'`"]
  = (" ORDER BY id", [])
  /\ Legacy.sql ["SELECT * FROM users WHERE 1=1 "; " ORDER BY id"]
                [VStr "sql`AND role = 'admin'`"]
     = (" ORDER BY id", [])
  /\ Dist.sql ["SELECT * FROM users WHERE 1=1 "; " ORDER BY id"] [VNull]
     = ("SELECT * FROM users WHERE 1=1  ORDER BY id", []).
Proof. repeat split. Qed.

(** ** [Raw] fragments *)

(** A [Raw] anywhere in a template, in the compiled build: its text follows
    the segment before it, and the parameters are those of what precedes
    followed by those of what follows; [bound] is not among them. *)
Lemma sql_raw_middle vals1 text bound vals2 strs1 str strs2 :
  List.length vals1 = List.length strs1 ->
  Dist.sql (strs1 ++ str :: strs2) (vals1 ++ VRaw text bound :: vals2)
  = (query (Dist.sql strs1 vals1) ++ str ++ text
       ++ query (Dist.sql strs2 vals2),
     (params (Dist.sql strs1 vals1) ++ params (Dist.sql strs2 vals2))%list).
Proof.
  intros Hlen. now rewrite dist_sql_middle by (exact Hlen || reflexivity).
Qed.

(** C1.  The bound values of an interpolated [Raw] are not appended to the
    parameters.  The fragment [caseWhen] builds carries four bound values and
    its text four markers; the statement has the four markers and no
    parameter.  In [src/index.js] a [Raw] is not spliced at all: it is bound
    as a parameter behind a marker. *)
Theorem sql_raw_bound_values_dropped :
  Dist.caseWhen "status" [("active", VStr "Aktywny"); ("inactive", VStr "Nieaktywny")]
  = VRaw "CASE WHEN status = ? THEN ? WHEN status = ? THEN ? END"
         (Some [VStr "active"; VStr "Aktywny"; VStr "inactive"; VStr "Nieaktywny"])
  /\ Dist.sql ["SELECT "; " as status_text FROM users"]
              [Dist.caseWhen "status"
                 [("active", VStr "Aktywny"); ("inactive", VStr "Nieaktywny")]]
     = ("SELECT CASE WHEN status = ? THEN ? WHEN status = ? THEN ? END as status_text FROM users",
        [])
  /\ Legacy.sql ["SELECT * FROM users WHERE "; ""] [Legacy.raw "created_at > NOW()"]
     = ("SELECT * FROM users WHERE ?", [VRaw "created_at > NOW()" None]).
Proof. repeat split. Qed.

(** ** [caseWhen] *)

Lemma caseWhen_conditions {A : Type} (text : string) (cases : list A) :
  map (fun _ => text) cases = repeat text (List.length cases).
Proof. induction cases as [|c cases IH]; simpl; [reflexivity | now rewrite IH]. Qed.

Lemma caseWhen_bound (cases : list (string * Value)) :
  List.length (Js.flatMap (fun '(condition, result) => [VStr condition; result]) cases)
  = 2 * List.length cases
  /\ forall k condition result,
       nth_error cases k = Some (condition, result) ->
       nth_error (Js.flatMap (fun '(condition, result) => [VStr condition; result]) cases)
                 (2 * k) = Some (VStr condition)
       /\ nth_error (Js.flatMap (fun '(condition, result) => [VStr condition; result]) cases)
                    (2 * k + 1) = Some result.
Proof.
  unfold Js.flatMap. induction cases as [|[c r] cases [IHlen IHnth]].
  - split; [reflexivity|]. intros [|k] ? ? H; discriminate.
  - split.
    + simpl. simpl in IHlen. rewrite IHlen. lia.
    + intros [|k] condition result H.
      * injection H as -> ->. now split.
      * simpl in H. destruct (IHnth k condition result H) as [H0 H1].
        replace (2 * S k) with (S (S (2 * k))) by lia.
        replace (S (S (2 * k)) + 1) with (S (S (2 * k + 1))) by lia.
        now split.
Qed.

(** C7.  In the compiled build [caseWhen(field, cases)] is a [Raw] whose
    text is [CASE], then [WHEN field = ? THEN ?] once per entry of [cases]
    separated by single spaces, then [END]; and whose bound values are, for
    the [k]-th entry (from zero), its condition at index [2k] and its result
    at index [2k + 1], and nothing else.  In [src/index.js] the fragment has
    the same text and no bound values at all. *)
Theorem caseWhen_fragment (field : string) (cases : list (string * Value)) :
  exists text bound,
    Dist.caseWhen field cases = VRaw text (Some bound)
    /\ text = "CASE "
              ++ Js.join (repeat ("WHEN " ++ field ++ " = ? THEN ?")
                                 (List.length cases)) " "
              ++ " END"
    /\ List.length bound = 2 * List.length cases
    /\ (forall k condition result,
          nth_error cases k = Some (condition, result) ->
          nth_error bound (2 * k) = Some (VStr condition)
          /\ nth_error bound (2 * k + 1) = Some result)
    /\ Legacy.caseWhen field cases = VRaw text None.
Proof.
  eexists _, _. split; [reflexivity|]. split; [|split; [|split]].
  - now rewrite caseWhen_conditions.
  - apply caseWhen_bound.
  - apply caseWhen_bound.
  - reflexivity.
Qed.

Lemma caseWhen_fragment_witness :
  nth_error [("active", VNum 1); ("inactive", VNum 0)] 1 = Some ("inactive", VNum 0)
  /\ exists bound,
       Dist.caseWhen "status" [("active", VNum 1); ("inactive", VNum 0)]
       = VRaw "CASE WHEN status = ? THEN ? WHEN status = ? THEN ? END" (Some bound)
       /\ List.length bound = 4
       /\ nth_error bound 2 = Some (VStr "inactive")
       /\ nth_error bound 3 = Some (VNum 0)
       /\ Legacy.caseWhen "status" [("active", VNum 1); ("inactive", VNum 0)]
          = VRaw "CASE WHEN status = ? THEN ? WHEN status = ? THEN ? END" None.
Proof.
  split; [reflexivity|].
  destruct (caseWhen_fragment "status" [("active", VNum 1); ("inactive", VNum 0)])
    as (text & bound & Hraw & Htext & Hlen & Hnth & Hlegacy).
  exists bound. subst text.
  split; [exact Hraw|]. split; [exact Hlen|].
  destruct (Hnth 1 "inactive" (VNum 0) eq_refl) as [H2 H3].
  split; [exact H2|]. split; [exact H3 | exact Hlegacy].
Defined.

(** ** Transactions *)

Lemma dist_add_all_from templates : forall st,
  Dist.add_all templates st
  = Returns tt (mkTx (queries st ++ dist_queries templates)
                     (tx_params st ++ dist_params templates)).
Proof.
  induction templates as [|[strings values] rest IH]; intros [qs ps]; simpl.
  - unfold ret, dist_queries, dist_params; simpl. now rewrite !app_nil_r.
  - unfold bind, Dist.add. destruct (Dist.sql strings values) as [q p] eqn:E.
    rewrite IH. unfold dist_queries, dist_params; simpl. rewrite E; simpl.
    now rewrite <- !app_assoc.
Qed.

Lemma legacy_add_all_from templates : forall st,
  Legacy.add_all templates st
  = Returns tt (mkTx (queries st ++ legacy_queries templates)
                     (tx_params st ++ legacy_params templates)).
Proof.
  induction templates as [|[strings values] rest IH]; intros [qs ps]; simpl.
  - unfold ret, legacy_queries, legacy_params; simpl. now rewrite !app_nil_r.
  - unfold bind, Legacy.add. destruct (Legacy.sql strings values) as [q p] eqn:E.
    rewrite IH. unfold legacy_queries, legacy_params; simpl. rewrite E; simpl.
    now rewrite <- !app_assoc.
Qed.

(** C8.  On a fresh accumulator, [add] called once for each of the templates
    [t1, ..., tk] and then [commit()] returns the statement whose query is
    the [k] query texts joined with a semicolon and a space and whose
    parameters are the [k] parameter lists one after the other, in the order
    of the calls.  Both builds agree. *)
Theorem transaction_commit (templates : list (list string * list Value)) :
  (Dist.add_all templates ;; Dist.commit)%call Dist.transaction
  = Returns (Js.join (dist_queries templates) "; ", dist_params templates)
            (mkTx (dist_queries templates) (dist_params templates))
  /\ (Legacy.add_all templates ;; Legacy.commit)%call Legacy.transaction
     = Returns (Js.join (legacy_queries templates) "; ", legacy_params templates)
               (mkTx (legacy_queries templates) (legacy_params templates)).
Proof.
  split; unfold bind.
  - now rewrite dist_add_all_from.
  - now rewrite legacy_add_all_from.
Qed.

(** C9, as the code has it.  The accumulator has no committed state:
    [commit()] leaves both arrays as they are, and an [add] after it returns
    normally, appending the query text and the parameters of its template
    like any other [add]; a second [commit()] then returns them too.  Both
    builds agree. *)
Theorem transaction_add_after_commit
        (st : Tx) (strings : list string) (values : list Value) :
  (Dist.commit ;; Dist.add strings values)%call st
  = Returns tt (mkTx (queries st ++ [query (Dist.sql strings values)])
                     (tx_params st ++ params (Dist.sql strings values)))
  /\ (Dist.commit ;; Dist.add strings values ;; Dist.commit)%call st
     = Returns (Js.join (queries st ++ [query (Dist.sql strings values)]) "; ",
                (tx_params st ++ params (Dist.sql strings values))%list)
               (mkTx (queries st ++ [query (Dist.sql strings values)])
                     (tx_params st ++ params (Dist.sql strings values)))
  /\ (Legacy.commit ;; Legacy.add strings values)%call st
     = Returns tt (mkTx (queries st ++ [query (Legacy.sql strings values)])
                        (tx_params st ++ params (Legacy.sql strings values)))
  /\ (Legacy.commit ;; Legacy.add strings values ;; Legacy.commit)%call st
     = Returns (Js.join (queries st ++ [query (Legacy.sql strings values)]) "; ",
                (tx_params st ++ params (Legacy.sql strings values))%list)
               (mkTx (queries st ++ [query (Legacy.sql strings values)])
                     (tx_params st ++ params (Legacy.sql strings values))).
Proof.
  unfold bind, Dist.commit, Dist.add, Legacy.commit, Legacy.add.
  destruct (Dist.sql strings values), (Legacy.sql strings values).
  repeat split.
Qed.

(** C9 as stated fails: after [commit()], [add] does not throw; it returns
    and the accumulated arrays have grown. *)
Lemma transaction_add_after_commit_counterexample :
  (Dist.add ["INSERT INTO users (name) VALUES ("; ")"] [VStr "John"] ;;
   Dist.commit ;;
   Dist.add ["UPDATE stats SET count = count + 1"] [])%call Dist.transaction
  <> Throws InvalidState
  /\ (Dist.add ["INSERT INTO users (name) VALUES ("; ")"] [VStr "John"] ;;
      Dist.commit ;;
      Dist.add ["UPDATE stats SET count = count + 1"] [])%call Dist.transaction
     = Returns tt (mkTx ["INSERT INTO users (name) VALUES (?)";
                         "UPDATE stats SET count = count + 1"]
                        [VStr "John"])
  /\ (Legacy.add ["INSERT INTO users (name) VALUES ("; ")"] [VStr "John"] ;;
      Legacy.commit ;;
      Legacy.add ["UPDATE stats SET count = count + 1"] [])%call Legacy.transaction
     = Returns tt (mkTx ["INSERT INTO users (name) VALUES (?)";
                         "UPDATE stats SET count = count + 1"]
                        [VStr "John"]).
Proof. repeat split. discriminate. Qed.

(** C10.  In the build that has [rollback()], whatever had been
    accumulated: [rollback()] returns, a [commit()] after it returns the
    statement with the empty query and no parameter, and [add] calls after
    that are accepted, a following [commit()] returning exactly what they
    accumulated. *)
Theorem transaction_rollback_not_terminal
        (st : Tx) (templates : list (list string * list Value)) :
  (Dist.rollback ;; Dist.commit)%call st = Returns ("", []) (mkTx [] [])
  /\ (Dist.rollback ;; Dist.commit ;; Dist.add_all templates ;; Dist.commit)%call st
     = Returns (Js.join (dist_queries templates) "; ", dist_params templates)
               (mkTx (dist_queries templates) (dist_params templates)).
Proof.
  split; [reflexivity|].
  unfold bind, Dist.rollback, Dist.commit.
  now rewrite dist_add_all_from.
Qed.

(** ** Markers and parameters *)

Lemma qmarks_append (a b : string) : qmarks (a ++ b) = qmarks a + qmarks b.
Proof. induction a as [|c a IH]; simpl; [reflexivity | rewrite IH; lia]. Qed.

Lemma qmarks_marks (n : nat) : qmarks (marks n) = n.
Proof.
  induction n as [|[|n] IH]; try reflexivity.
  change (marks (S (S n))) with ("?, " ++ marks (S n)).
  rewrite qmarks_append, IH. reflexivity.
Qed.

Lemma qmarks_assignments (entries : list (string * Value)) :
  qmarks (Js.join (map (fun '(key, _) => key ++ " = ?") entries) ", ")
  = list_sum (map (fun e => qmarks (fst e)) entries) + List.length entries.
Proof.
  induction entries as [|[k v] [|e entries] IH].
  - reflexivity.
  - simpl. rewrite qmarks_append. simpl. lia.
  - change (Js.join (map (fun '(key, _) => key ++ " = ?") ((k, v) :: e :: entries)) ", ")
      with ((k ++ " = ?") ++ ", "
            ++ Js.join (map (fun '(key, _) => key ++ " = ?") (e :: entries)) ", ").
    rewrite !qmarks_append, IH. simpl. rewrite ?qmarks_append. simpl. lia.
Qed.

Lemma plain_keys (entries : list (string * Value)) :
  has_marked_key (VObj entries) = false ->
  list_sum (map (fun e => qmarks (fst e)) entries) = 0.
Proof.
  simpl. induction entries as [|e entries IH]; [reflexivity|].
  simpl. intros H. apply orb_false_elim in H as [He Hrest].
  apply negb_false_iff, Nat.eqb_eq in He. rewrite He. now apply IH.
Qed.

Lemma slots_without_hole (slots : list (option Value)) :
  has_hole (VSparse slots) = false ->
  Js.join_slots (Js.map_const "?" slots) ", " = marks (List.length slots)
  /\ List.length (Js.spread slots) = List.length slots.
Proof.
  intros H. split; [|apply length_map].
  rewrite <- join_marks. unfold Js.join_slots, Js.map_const, Js.join. f_equal.
  rewrite map_map. simpl in H.
  induction slots as [|[v|] slots IH]; simpl in *; try discriminate.
  - reflexivity.
  - now rewrite IH.
Qed.

(** A value that is not a [Raw], has no hole and no [?] in a key: one [?]
    per parameter. *)
Lemma dist_appended_qmarks (v : Value) :
  is_raw v = false -> has_hole v = false -> has_marked_key v = false ->
  qmarks (query (dist_appended v)) = dist_bound v.
Proof.
  intros Hr Hh Hk. unfold dist_bound, dist_appended, Dist.sql_step.
  destruct v as [| |b|n|s|elems|entries|text bound|slots]; try discriminate;
    try reflexivity.
  - simpl. now destruct (Js.includes s "sql`").
  - simpl. rewrite join_marks, qmarks_append, qmarks_marks. simpl. lia.
  - cbn -[has_marked_key]. rewrite qmarks_assignments, length_map, plain_keys by exact Hk.
    reflexivity.
  - destruct (slots_without_hole slots Hh) as [Hjoin Hlen].
    cbn -[Js.join_slots Js.map_const Js.spread]. rewrite Hjoin, Hlen.
    rewrite qmarks_append, qmarks_marks. simpl. lia.
Qed.

Lemma dist_step_params (v : Value) (str : string) :
  params (Dist.sql_step [v] empty str 0) = params (dist_appended v).
Proof.
  unfold dist_appended, Dist.sql_step.
  destruct v; simpl; try reflexivity. now destruct (Js.includes s "sql`").
Qed.

(** With no value left, the segments are concatenated. *)
Lemma dist_sql_no_values (strs : list string) :
  Dist.sql strs [] = (String.concat "" strs, []).
Proof.
  unfold Dist.sql, Js.reduce.
  rewrite (reduce_from_splice _ dist_step_appends).
  rewrite splice_empty_l. generalize 0.
  induction strs as [|str strs IH]; intros i; simpl; [reflexivity|].
  rewrite (reduce_from_splice _ dist_step_appends), IH.
  unfold Js.at_index. destruct i; simpl; unfold splice; simpl.
  all: destruct strs; simpl; now rewrite ?append_nil_r.
Qed.

Lemma dist_sql_cons v vals str strs :
  Dist.sql (str :: strs) (v :: vals)
  = splice (Dist.sql_step [v] empty str 0) (Dist.sql strs vals).
Proof. unfold Dist.sql. apply (reduce_cons _ dist_step_appends). Qed.

Lemma qmarks_concat (strs : list string) :
  qmarks (String.concat "" strs) = written_qmarks strs [].
Proof.
  induction strs as [|str [|str' strs] IH]; try reflexivity.
  - simpl. lia.
  - change (String.concat "" (str :: str' :: strs))
      with (str ++ "" ++ String.concat "" (str' :: strs)).
    rewrite !qmarks_append, IH. reflexivity.
Qed.

(** Every parameter of the statement was appended for one of the values. *)
Lemma dist_params_count : forall vals strs,
  List.length vals <= List.length strs ->
  List.length (params (Dist.sql strs vals)) = list_sum (map dist_bound vals).
Proof.
  induction vals as [|v vals IH]; intros strs Hlen.
  - now rewrite dist_sql_no_values.
  - destruct strs as [|str strs]; simpl in Hlen; [lia|].
    rewrite dist_sql_cons, params_splice.
    rewrite length_app, dist_step_params, IH by lia. reflexivity.
Qed.

Lemma dist_bound_regular (vals : list Value) :
  Forall (fun v => has_hole v = false /\ has_marked_key v = false
                   /\ carries_bound v = false) vals ->
  list_sum (map dist_bound vals) = nonraw_qmarks dist_appended vals
  /\ carried_bound vals = 0.
Proof.
  unfold nonraw_qmarks, carried_bound.
  induction 1 as [|v vals (Hh & Hk & Hc) _ [IHn IHc]]; [now split|].
  simpl. destruct (is_raw v) eqn:Hr; simpl; rewrite IHn, IHc.
  - apply negb_false_iff, Nat.eqb_eq in Hc. rewrite Hc.
    destruct v; try discriminate. now split.
  - rewrite dist_appended_qmarks by assumption. now split.
Qed.

(** Every [?] of the query was written by the caller in a segment or in a
    [Raw], or was appended for a value that is not a [Raw]. *)
Lemma dist_query_qmarks : forall vals strs,
  List.length vals <= List.length strs ->
  qmarks (query (Dist.sql strs vals))
  = written_qmarks strs vals + nonraw_qmarks dist_appended vals.
Proof.
  induction vals as [|v vals IH]; intros strs Hlen.
  - rewrite dist_sql_no_values. simpl. rewrite qmarks_concat.
    unfold nonraw_qmarks; simpl. lia.
  - destruct strs as [|str strs]; simpl in Hlen; [lia|].
    rewrite dist_sql_cons, query_splice.
    rewrite qmarks_append, IH by lia.
    unfold nonraw_qmarks; simpl filter. simpl written_qmarks.
    destruct (is_conditional v) eqn:Hc.
    + rewrite dist_step_conditional by exact Hc.
      assert (Hr : is_raw v = false) by (destruct v; try discriminate; reflexivity).
      assert (Hq : qmarks (query (dist_appended v)) = 0).
      { unfold dist_appended. now rewrite dist_step_conditional. }
      rewrite Hr. simpl. rewrite Hq. reflexivity.
    + rewrite dist_step_kept by exact Hc. rewrite query_splice.
      rewrite qmarks_append. change (query (str, [])) with str.
      destruct (is_raw v) eqn:Hr; simpl.
      * destruct v; try discriminate. simpl. lia.
      * lia.
Qed.

Lemma appended_agree (v : Value) :
  is_raw v = false -> legacy_appended v = dist_appended v.
Proof. intros Hr. destruct v; try discriminate; reflexivity. Qed.

Lemma nonraw_qmarks_agree (vals : list Value) :
  nonraw_qmarks legacy_appended vals = nonraw_qmarks dist_appended vals.
Proof.
  unfold nonraw_qmarks. f_equal. apply map_ext_in. intros v Hv.
  apply filter_In in Hv as [_ Hr]. apply negb_true_iff in Hr.
  now rewrite appended_agree.
Qed.

Lemma legacy_sql_without_raw (strs : list string) (vals : list Value) :
  Forall (fun v => is_raw v = false) vals ->
  Legacy.sql strs vals = Dist.sql strs vals.
Proof.
  intros Hvals. unfold Legacy.sql, Dist.sql, Js.reduce.
  generalize 0. generalize (@pair string (list Value) "" []).
  induction strs as [|str strs IH]; intros acc i; simpl; [reflexivity|].
  rewrite <- IH. f_equal. destruct acc as [q p].
  unfold Legacy.sql_step, Dist.sql_step, Js.at_index.
  destruct (nth_in_or_default i vals VUndefined) as [Hin | ->]; [|reflexivity].
  rewrite Forall_forall in Hvals. specialize (Hvals _ Hin).
  destruct (nth i vals VUndefined); try discriminate; reflexivity.
Qed.

(** C3, as the code has it.  For a template with one value fewer than
    segments in which no interpolated array has a hole, no key of an
    interpolated object contains a [?] and no interpolated [Raw] carries
    bound values: the [?] characters appended for the values that are not
    [Raw], together with the bound values the [Raw] fragments carry (none),
    are as many as the parameters of the statement; and every [?] of the
    query is one of these or was written by the caller in a segment or in
    the text of a [Raw].  In [src/index.js] the same holds when no value is
    a [Raw]. *)
Theorem sql_placeholder_invariant (strs : list string) (vals : list Value) :
  List.length vals = List.length strs - 1 ->
  Forall (fun v => has_hole v = false /\ has_marked_key v = false
                   /\ carries_bound v = false) vals ->
  nonraw_qmarks dist_appended vals + carried_bound vals
  = List.length (params (Dist.sql strs vals))
  /\ qmarks (query (Dist.sql strs vals))
     = written_qmarks strs vals + nonraw_qmarks dist_appended vals
  /\ (Forall (fun v => is_raw v = false) vals ->
      nonraw_qmarks legacy_appended vals + carried_bound vals
      = List.length (params (Legacy.sql strs vals))).
Proof.
  intros Harity Hregular.
  assert (Hlen : List.length vals <= List.length strs) by lia.
  destruct (dist_bound_regular vals Hregular) as [Hsum Hcarried].
  assert (Hdist : nonraw_qmarks dist_appended vals + carried_bound vals
                  = List.length (params (Dist.sql strs vals))).
  { rewrite dist_params_count, Hsum, Hcarried by exact Hlen. lia. }
  split; [exact Hdist|]. split.
  - now apply dist_query_qmarks.
  - intros Hnoraw.
    now rewrite nonraw_qmarks_agree, legacy_sql_without_raw.
Qed.

Lemma sql_placeholder_invariant_witness :
  (List.length [VNum 7; VArr [VNum 1; VNum 2]; VRaw "b = 1" None;
                VObj [("c", VNull)]]
   = List.length ["SELECT ? FROM t WHERE a = "; " AND id IN "; " AND ";
                  "; UPDATE t SET "; ""] - 1
   /\ Forall (fun v => has_hole v = false /\ has_marked_key v = false
                       /\ carries_bound v = false)
             [VNum 7; VArr [VNum 1; VNum 2]; VRaw "b = 1" None;
              VObj [("c", VNull)]])
  /\ 4 + 0
     = List.length
         (params (Dist.sql ["SELECT ? FROM t WHERE a = "; " AND id IN "; " AND ";
                            "; UPDATE t SET "; ""]
                           [VNum 7; VArr [VNum 1; VNum 2];
                            VRaw "b = 1" None; VObj [("c", VNull)]])).
Proof.
  assert (H : Forall (fun v => has_hole v = false /\ has_marked_key v = false
                               /\ carries_bound v = false)
                     [VNum 7; VArr [VNum 1; VNum 2]; VRaw "b = 1" None;
                      VObj [("c", VNull)]])
    by (repeat constructor).
  split; [split; [reflexivity | exact H]|].
  exact (proj1 (sql_placeholder_invariant
                  ["SELECT ? FROM t WHERE a = "; " AND id IN "; " AND ";
                   "; UPDATE t SET "; ""]
                  [VNum 7; VArr [VNum 1; VNum 2];
                   VRaw "b = 1" None; VObj [("c", VNull)]]
                  eq_refl H)).
Defined.

(** C3 as stated fails.  An array with a hole gets a marker only for the
    slots that are not holes and a parameter for every slot; a [?] in an
    object key is one more [?] without a parameter; the bound values a
    [Raw] carries are not among the parameters; and [src/index.js] binds a
    [Raw] itself. *)
Lemma sql_placeholder_invariant_counterexample :
  (Dist.sql ["SELECT * FROM users WHERE id IN "; ""]
            [VSparse [Some (VNum 1); None; Some (VNum 3)]]
   = ("SELECT * FROM users WHERE id IN (?, , ?)",
      [VNum 1; VUndefined; VNum 3])
   /\ nonraw_qmarks dist_appended [VSparse [Some (VNum 1); None; Some (VNum 3)]]
      + carried_bound [VSparse [Some (VNum 1); None; Some (VNum 3)]]
      <> List.length
           (params (Dist.sql ["SELECT * FROM users WHERE id IN "; ""]
                             [VSparse [Some (VNum 1); None; Some (VNum 3)]])))
  /\ (Dist.sql ["UPDATE t SET "; ""] [VObj [("c?", VNum 1)]]
      = ("UPDATE t SET c? = ?", [VNum 1])
      /\ nonraw_qmarks dist_appended [VObj [("c?", VNum 1)]]
         + carried_bound [VObj [("c?", VNum 1)]]
         <> List.length
              (params (Dist.sql ["UPDATE t SET "; ""] [VObj [("c?", VNum 1)]])))
  /\ (Dist.sql ["SELECT * FROM t WHERE "; ""] [VRaw "b = ?" (Some [VNum 3])]
      = ("SELECT * FROM t WHERE b = ?", [])
      /\ nonraw_qmarks dist_appended [VRaw "b = ?" (Some [VNum 3])]
         + carried_bound [VRaw "b = ?" (Some [VNum 3])]
         <> List.length
              (params (Dist.sql ["SELECT * FROM t WHERE "; ""]
                                [VRaw "b = ?" (Some [VNum 3])])))
  /\ (Legacy.sql ["SELECT * FROM t WHERE "; ""] [VRaw "b = 1" None]
      = ("SELECT * FROM t WHERE ?", [VRaw "b = 1" None])
      /\ nonraw_qmarks legacy_appended [VRaw "b = 1" None]
         + carried_bound [VRaw "b = 1" None]
         <> List.length
              (params (Legacy.sql ["SELECT * FROM t WHERE "; ""]
                                  [VRaw "b = 1" None]))).
Proof. repeat split; discriminate. Qed.

(** * Further properties of the code *)

(** ** [escape] *)

Example escape_test : Clauses.escape "O'Connor's 100%" = "O\'Connor\'s 100\%".
Proof. reflexivity. Qed.

Lemma length_append (a b : string) :
  String.length (a ++ b) = String.length a + String.length b.
Proof. induction a as [|c a IH]; simpl; [reflexivity | now rewrite IH]. Qed.

Ltac each_character c :=
  let b0 := fresh in let b1 := fresh in let b2 := fresh in let b3 := fresh in
  let b4 := fresh in let b5 := fresh in let b6 := fresh in let b7 := fresh in
  destruct c as [b0 b1 b2 b3 b4 b5 b6 b7];
  destruct b0, b1, b2, b3, b4, b5, b6, b7.

(** X1.  [escape] works character by character: escaping a concatenation
    is concatenating the escaped parts. *)
Theorem escape_append (a b : string) :
  Clauses.escape (a ++ b) = Clauses.escape a ++ Clauses.escape b.
Proof.
  induction a as [|c a IH]; simpl; [reflexivity|].
  now rewrite IH, append_assoc.
Qed.

(** X2.  [escape] lengthens a text by one character for each character of
    its class, and returns the text unchanged exactly when it has none. *)
Theorem escape_length (s : string) :
  String.length (Clauses.escape s) = String.length s + class_count s
  /\ (Clauses.escape s = s <-> class_count s = 0).
Proof.
  assert (Hlen : forall t, String.length (Clauses.escape t)
                           = String.length t + class_count t).
  { induction t as [|c t IH]; [reflexivity|].
    cbn [Clauses.escape class_count]. rewrite length_append, IH.
    each_character c; simpl; lia. }
  split; [apply Hlen|]. split.
  - intros Heq. specialize (Hlen s). rewrite Heq in Hlen. lia.
  - induction s as [|c s IH]; [reflexivity|].
    cbn [Clauses.escape class_count].
    destruct (Clauses.in_class c); [simpl; lia|].
    intros H0. simpl. now rewrite IH.
Qed.

Lemma escape_length_witness :
  class_count "SELECT id FROM users" = 0
  /\ Clauses.escape "SELECT id FROM users" = "SELECT id FROM users".
Proof.
  split; [reflexivity|].
  exact (proj2 (proj2 (escape_length "SELECT id FROM users")) eq_refl).
Defined.

(** X3.  In what [escape] returns, every backslash opens one of the ten
    two-character escapes, and no NUL, backspace, tab, Ctrl-Z, line feed,
    carriage return, quote or percent stands anywhere but right behind such
    a backslash. *)
Theorem escape_well_escaped (s : string) :
  well_escaped (Clauses.escape s) = true.
Proof.
  induction s as [|c s IH]; [reflexivity|].
  cbn [Clauses.escape].
  each_character c; simpl; exact IH.
Qed.

(** X4.  [escape] loses nothing: reading the two-character escapes back
    gives the text that was escaped, so two different texts are never
    escaped to the same text. *)
Theorem escape_round_trip (s : string) :
  unescape (Clauses.escape s) = s.
Proof.
  induction s as [|c s IH]; [reflexivity|].
  cbn [Clauses.escape].
  each_character c; simpl; now rewrite IH.
Qed.

(** ** The clause builders *)

Example join_test :
  Clauses.join [("orders", "users.id = orders.user_id")] (Some "LEFT")
  = VRaw "LEFT JOIN orders ON users.id = orders.user_id" None.
Proof. reflexivity. Qed.

Example orderBy_test :
  Clauses.orderBy (Clauses.OrderMap [("name", "ASC"); ("age", "DESC")])
  = VRaw "ORDER BY name ASC, age DESC" None.
Proof. reflexivity. Qed.

Example groupBy_test :
  Clauses.groupBy (Clauses.FieldList ["department"; "role"])
  = VRaw "GROUP BY department, role" None.
Proof. reflexivity. Qed.

Example limit_test :
  Clauses.limit (VNum 10) VUndefined = VRaw "LIMIT ?" None
  /\ Clauses.limit (VNum 10) (VNum 20) = VRaw "LIMIT ? OFFSET ?" None.
Proof. split; reflexivity. Qed.

(** Joining two non-empty arrays one after the other. *)
Lemma join_app (xs ys : list string) (sep : string) :
  xs <> [] -> ys <> [] ->
  Js.join (xs ++ ys) sep = Js.join xs sep ++ sep ++ Js.join ys sep.
Proof.
  intros Hx Hy. induction xs as [|x [|x' xs] IH]; [contradiction | |].
  - destruct ys as [|y ys]; [contradiction | reflexivity].
  - change (Js.join ((x :: x' :: xs) ++ ys) sep)
      with (x ++ sep ++ Js.join ((x' :: xs) ++ ys) sep).
    rewrite IH by discriminate.
    change (Js.join (x :: x' :: xs) sep)
      with (x ++ sep ++ Js.join (x' :: xs) sep).
    now rewrite !append_assoc.
Qed.

Lemma qmarks_join (parts : list string) (sep : string) :
  qmarks (Js.join parts sep)
  = list_sum (map qmarks parts) + (List.length parts - 1) * qmarks sep.
Proof.
  induction parts as [|p [|p' parts] IH]; [reflexivity | simpl; lia |].
  change (Js.join (p :: p' :: parts) sep)
    with (p ++ sep ++ Js.join (p' :: parts) sep).
  rewrite !qmarks_append, IH. simpl. lia.
Qed.

(** X5.  [join] writes one clause [TYPE JOIN table ON condition] per entry,
    in the order of the entries and separated by single spaces: the fragment
    for two non-empty objects one after the other is the two fragments with a
    space between.  Without entries the fragment is empty; a type left out is
    [INNER]; no fragment has bound values. *)
Theorem join_clauses
        (joins1 joins2 : list (string * string)) (type : option string)
        (table condition : string) :
  (joins1 <> [] -> joins2 <> [] ->
   Clauses.join (joins1 ++ joins2) type
   = VRaw (raw_value (Clauses.join joins1 type) ++ " "
             ++ raw_value (Clauses.join joins2 type)) None)
  /\ Clauses.join [(table, condition)] type
     = VRaw (match type with Some t => t | None => "INNER" end
               ++ " JOIN " ++ table ++ " ON " ++ condition) None
  /\ Clauses.join [] type = VRaw "" None
  /\ Clauses.join joins1 None = Clauses.join joins1 (Some "INNER").
Proof.
  split; [|repeat split].
  intros H1 H2. unfold Clauses.join, Dist.raw; simpl raw_value.
  rewrite map_app, join_app; [reflexivity | |].
  - destruct joins1; [contradiction | discriminate].
  - destruct joins2; [contradiction | discriminate].
Qed.

Lemma join_clauses_witness :
  ([("posts", "users.id = posts.user_id")] <> []
   /\ [("comments", "posts.id = comments.post_id")] <> [])
  /\ Clauses.join [("posts", "users.id = posts.user_id");
                   ("comments", "posts.id = comments.post_id")] (Some "LEFT")
     = VRaw "LEFT JOIN posts ON users.id = posts.user_id LEFT JOIN comments ON posts.id = comments.post_id"
            None.
Proof.
  split; [split; discriminate|].
  refine (proj1 (join_clauses [("posts", "users.id = posts.user_id")]
                              [("comments", "posts.id = comments.post_id")]
                              (Some "LEFT") "" "") _ _); discriminate.
Defined.

Lemma upper_char_idempotent (c : ascii) :
  Clauses.upper_char (Clauses.upper_char c) = Clauses.upper_char c.
Proof. each_character c; reflexivity. Qed.

Lemma toUpperCase_idempotent (s : string) :
  Clauses.toUpperCase (Clauses.toUpperCase s) = Clauses.toUpperCase s.
Proof.
  induction s as [|c s IH]; simpl; [reflexivity|].
  now rewrite upper_char_idempotent, IH.
Qed.

(** X6.  For directions written in ASCII, in the object form of
    [orderBy] only the upper-cased direction reaches the text: two objects
    with the same fields whose directions agree once upper-cased give the
    same fragment, and upper-casing the directions beforehand changes
    nothing.  In the string form the text is taken as it is, lower-case
    letters included. *)
Theorem orderBy_direction_case (order1 order2 : list (string * string)) (text : string) :
  (Forall (fun e => ascii_text (snd e) = true) order1 ->
   Forall (fun e => ascii_text (snd e) = true) order2 ->
   map fst order1 = map fst order2 ->
   map (fun e => Clauses.toUpperCase (snd e)) order1
   = map (fun e => Clauses.toUpperCase (snd e)) order2 ->
   Clauses.orderBy (Clauses.OrderMap order1)
   = Clauses.orderBy (Clauses.OrderMap order2))
  /\ (Forall (fun e => ascii_text (snd e) = true) order1 ->
      Forall (fun e => ascii_text (Clauses.toUpperCase (snd e)) = true) order1
      /\ Clauses.orderBy
           (Clauses.OrderMap (map (fun e => (fst e, Clauses.toUpperCase (snd e))) order1))
         = Clauses.orderBy (Clauses.OrderMap order1))
  /\ Clauses.orderBy (Clauses.OrderText text) = VRaw ("ORDER BY " ++ text) None.
Proof.
  split; [|split; [|reflexivity]].
  - intros _ _ Hf Hd. unfold Clauses.orderBy. do 3 f_equal.
    revert order2 Hf Hd.
    induction order1 as [|[f d] order1 IH]; intros [|[f' d'] order2] Hf Hd;
      simpl in *; try discriminate; [reflexivity|].
    injection Hf as -> Hf. injection Hd as Hd1 Hd.
    rewrite Hd1. f_equal. now apply IH.
  - intros Hascii. split.
    + eapply Forall_impl; [|exact Hascii]. intros [f d]; simpl. clear.
      induction d as [|c d IH]; simpl; [reflexivity|].
      intros H. apply andb_true_iff in H as [Hc Hd].
      rewrite (IH Hd), andb_true_r. revert Hc. clear. each_character c; intros H; exact H || reflexivity.
    + unfold Clauses.orderBy. do 3 f_equal.
      rewrite map_map. apply map_ext. intros [f d]; simpl.
      now rewrite toUpperCase_idempotent.
Qed.

Lemma orderBy_direction_case_witness :
  (Forall (fun e => ascii_text (snd e) = true) [("name", "asc"); ("age", "Desc")]
   /\ Forall (fun e => ascii_text (snd e) = true) [("name", "ASC"); ("age", "DESC")]
   /\ map fst [("name", "asc"); ("age", "Desc")] = map fst [("name", "ASC"); ("age", "DESC")]
   /\ map (fun e => Clauses.toUpperCase (snd e)) [("name", "asc"); ("age", "Desc")]
      = map (fun e => Clauses.toUpperCase (snd e)) [("name", "ASC"); ("age", "DESC")])
  /\ Clauses.orderBy (Clauses.OrderMap [("name", "asc"); ("age", "Desc")])
     = VRaw "ORDER BY name ASC, age DESC" None
  /\ Clauses.orderBy (Clauses.OrderMap [("name", "ASC"); ("age", "DESC")])
     = Clauses.orderBy (Clauses.OrderMap [("name", "asc"); ("age", "Desc")]).
Proof.
  assert (H1 : Forall (fun e : string * string => ascii_text (snd e) = true)
                      [("name", "asc"); ("age", "Desc")]) by (repeat constructor).
  assert (H2 : Forall (fun e : string * string => ascii_text (snd e) = true)
                      [("name", "ASC"); ("age", "DESC")]) by (repeat constructor).
  split; [repeat split; assumption|]. split.
  - exact (proj1 (orderBy_direction_case
                    [("name", "asc"); ("age", "Desc")]
                    [("name", "ASC"); ("age", "DESC")] "")
                 H1 H2 eq_refl eq_refl).
  - exact (proj2 (proj1 (proj2 (orderBy_direction_case
                                  [("name", "asc"); ("age", "Desc")] [] ""))
                        H1)).
Defined.

(** X7.  [groupBy] of an array lists its fields in order, separated by a
    comma and a space: the fragment for two non-empty arrays one after the
    other is the first fragment, a comma and a space, and the fields of the
    second.  A one-element array gives what the string itself gives, and the
    empty array gives [GROUP BY] followed by nothing. *)
Theorem groupBy_fields (fields1 fields2 : list string) (field : string) :
  (fields1 <> [] -> fields2 <> [] ->
   Clauses.groupBy (Clauses.FieldList (fields1 ++ fields2))
   = VRaw (raw_value (Clauses.groupBy (Clauses.FieldList fields1)) ++ ", "
             ++ Js.join fields2 ", ") None)
  /\ Clauses.groupBy (Clauses.FieldList [field])
     = Clauses.groupBy (Clauses.FieldName field)
  /\ Clauses.groupBy (Clauses.FieldList []) = VRaw "GROUP BY " None.
Proof.
  split; [|split; reflexivity].
  intros H1 H2. unfold Clauses.groupBy, Dist.raw; cbn [raw_value append].
  now rewrite join_app by assumption.
Qed.

Lemma groupBy_fields_witness :
  (["department"] <> [] /\ ["role"; "team"] <> [])
  /\ Clauses.groupBy (Clauses.FieldList ["department"; "role"; "team"])
     = VRaw "GROUP BY department, role, team" None.
Proof.
  split; [split; discriminate|].
  refine (proj1 (groupBy_fields ["department"] ["role"; "team"] "") _ _);
    discriminate.
Defined.

(** X8.  The count and the offset given to [limit] are never bound.
    Interpolated anywhere in a template of the compiled build, the fragment
    adds [LIMIT ?], or [LIMIT ? OFFSET ?] when an offset other than
    [undefined] was given, and the parameters are those of what precedes
    followed by those of what follows: the markers of the fragment have no
    parameter. *)
Theorem limit_never_bound
        (strs1 strs2 : list string) (str : string)
        (vals1 vals2 : list Value) (count offset : Value) :
  List.length vals1 = List.length strs1 ->
  Dist.sql (strs1 ++ str :: strs2)
           (vals1 ++ Clauses.limit count offset :: vals2)
  = (query (Dist.sql strs1 vals1) ++ str
       ++ match offset with
          | VUndefined => "LIMIT ?"
          | _ => "LIMIT ? OFFSET ?"
          end
       ++ query (Dist.sql strs2 vals2),
     (params (Dist.sql strs1 vals1) ++ params (Dist.sql strs2 vals2))%list).
Proof.
  intros Hlen. unfold Clauses.limit, Dist.raw.
  destruct offset; now rewrite sql_raw_middle by exact Hlen.
Qed.

Lemma limit_never_bound_witness :
  List.length [VNum 1] = List.length ["SELECT * FROM users WHERE id > "]
  /\ Dist.sql ["SELECT * FROM users WHERE id > "; " "; ""]
              [VNum 1; Clauses.limit (VNum 10) (VNum 20)]
     = ("SELECT * FROM users WHERE id > ? LIMIT ? OFFSET ?", [VNum 1]).
Proof.
  split; [reflexivity|].
  exact (limit_never_bound ["SELECT * FROM users WHERE id > "] [""] " "
                           [VNum 1] [] (VNum 10) (VNum 20) eq_refl).
Defined.

(** X9.  The fragment [caseWhen] builds in the compiled build has, besides
    the [?] characters of the field name repeated once per entry, exactly as
    many markers as bound values: two per entry. *)
Theorem caseWhen_markers_bound (field : string) (cases : list (string * Value)) :
  qmarks (raw_value (Dist.caseWhen field cases))
  = List.length (raw_params (Dist.caseWhen field cases))
    + List.length cases * qmarks field
  /\ List.length (raw_params (Dist.caseWhen field cases)) = 2 * List.length cases.
Proof.
  assert (Hsum : list_sum (map qmarks
                   (map (fun _ : string * Value => "WHEN " ++ field ++ " = ? THEN ?") cases))
                 = List.length cases * (qmarks field + 2)).
  { induction cases as [|c cases IH]; [reflexivity|].
    unfold list_sum in *. cbn [map fold_right]. rewrite IH.
    rewrite !qmarks_append. simpl. lia. }
  unfold Dist.caseWhen, Dist.raw; cbn [raw_value raw_params].
  destruct (caseWhen_bound cases) as [Hlen _]. rewrite Hlen.
  split; [|reflexivity].
  rewrite !qmarks_append, qmarks_join, length_map, Hsum. simpl. lia.
Qed.

(** ** [sql] as a whole *)

Lemma legacy_sql_cons v vals str strs :
  Legacy.sql (str :: strs) (v :: vals)
  = splice (Legacy.sql_step [v] empty str 0) (Legacy.sql strs vals).
Proof. unfold Legacy.sql. apply (reduce_cons _ legacy_step_appends). Qed.

(** X10.  Templates compose: when a template is cut right after a value,
    its statement is the statement of the first part followed by the
    statement of the second, text after text and parameters after
    parameters.  Both builds. *)
Theorem sql_compose (strs1 strs2 : list string) (vals1 vals2 : list Value) :
  List.length vals1 = List.length strs1 ->
  Dist.sql (strs1 ++ strs2) (vals1 ++ vals2)
  = (query (Dist.sql strs1 vals1) ++ query (Dist.sql strs2 vals2),
     (params (Dist.sql strs1 vals1) ++ params (Dist.sql strs2 vals2))%list)
  /\ Legacy.sql (strs1 ++ strs2) (vals1 ++ vals2)
     = (query (Legacy.sql strs1 vals1) ++ query (Legacy.sql strs2 vals2),
        (params (Legacy.sql strs1 vals1) ++ params (Legacy.sql strs2 vals2))%list).
Proof.
  intros Hlen. split.
  - unfold Dist.sql. now rewrite (reduce_app _ dist_step_appends) by exact Hlen.
  - unfold Legacy.sql. now rewrite (reduce_app _ legacy_step_appends) by exact Hlen.
Qed.

Lemma sql_compose_witness :
  List.length [VNum 1; VNull] = List.length ["SELECT * FROM t WHERE a = "; " AND b IS "]
  /\ Dist.sql ["SELECT * FROM t WHERE a = "; " AND b IS "; " AND c IN "; ""]
              [VNum 1; VNull; VArr [VNum 2; VNum 3]]
     = ("SELECT * FROM t WHERE a = ? AND b IS  AND c IN (?, ?)",
        [VNum 1; VNum 2; VNum 3]).
Proof.
  split; [reflexivity|].
  exact (proj1 (sql_compose ["SELECT * FROM t WHERE a = "; " AND b IS "]
                            [" AND c IN "; ""]
                            [VNum 1; VNull] [VArr [VNum 2; VNum 3]] eq_refl)).
Defined.

Lemma dist_appended_params (v : Value) :
  params (dist_appended v) = dist_bound_values v.
Proof.
  unfold dist_appended, Dist.sql_step.
  destruct v; simpl; try reflexivity. now destruct (Js.includes s "sql`").
Qed.

Lemma legacy_step_params (v : Value) (str : string) :
  params (Legacy.sql_step [v] empty str 0) = legacy_bound_values v.
Proof.
  unfold Legacy.sql_step.
  destruct v; simpl; try reflexivity. now destruct (Js.includes s "sql`").
Qed.

(** The step of either build reads [values] only at the index it is given. *)
Lemma reduce_from_values
      (step : list Value -> Statement -> string -> nat -> Statement)
      (Hstep : forall values acc str i,
          step values acc str i
          = splice acc (step [Js.at_index values i] empty str 0))
      (vals vals' : list Value) (strs : list string) : forall i acc,
  (forall j, i <= j < i + List.length strs ->
             Js.at_index vals j = Js.at_index vals' j) ->
  Js.reduce_from (step vals) i strs acc = Js.reduce_from (step vals') i strs acc.
Proof.
  induction strs as [|str strs IH]; intros i acc Hsame; simpl; [reflexivity|].
  rewrite (Hstep vals), (Hstep vals'), (Hsame i) by (simpl; lia).
  apply IH. intros j Hj. apply Hsame. simpl. lia.
Qed.

Lemma at_index_firstn (vals : list Value) (n j : nat) :
  j < n -> Js.at_index (firstn n vals) j = Js.at_index vals j.
Proof.
  unfold Js.at_index. revert vals j.
  induction n as [|n IH]; intros vals j Hj; [lia|].
  destruct vals as [|v vals]; [reflexivity|].
  destruct j as [|j]; simpl; [reflexivity | apply IH; lia].
Qed.

Lemma at_index_padded (vals : list Value) (k j : nat) :
  Js.at_index (vals ++ repeat VUndefined k) j = Js.at_index vals j.
Proof.
  unfold Js.at_index.
  destruct (Nat.lt_ge_cases j (List.length vals)) as [Hlt | Hge].
  - now rewrite app_nth1.
  - rewrite app_nth2, (nth_overflow vals) by exact Hge.
    destruct (Nat.lt_ge_cases (j - List.length vals) k) as [Hk | Hk].
    + now rewrite nth_repeat_lt.
    + rewrite nth_overflow; [reflexivity|]. now rewrite repeat_length.
Qed.

(** X11.  [sql] reads one value per segment and no more: values beyond the
    number of segments change nothing, and a value that is missing is the
    same as an [undefined] passed in its place.  Both builds. *)
Theorem sql_values_read (strs : list string) (vals : list Value) (k : nat) :
  Dist.sql strs vals = Dist.sql strs (firstn (List.length strs) vals)
  /\ Dist.sql strs vals = Dist.sql strs (vals ++ repeat VUndefined k)
  /\ Legacy.sql strs vals = Legacy.sql strs (firstn (List.length strs) vals)
  /\ Legacy.sql strs vals = Legacy.sql strs (vals ++ repeat VUndefined k).
Proof.
  unfold Dist.sql, Legacy.sql, Js.reduce. repeat split.
  - apply (reduce_from_values _ dist_step_appends). intros j Hj.
    symmetry. apply at_index_firstn. lia.
  - apply (reduce_from_values _ dist_step_appends). intros j _.
    symmetry. apply at_index_padded.
  - apply (reduce_from_values _ legacy_step_appends). intros j Hj.
    symmetry. apply at_index_firstn. lia.
  - apply (reduce_from_values _ legacy_step_appends). intros j _.
    symmetry. apply at_index_padded.
Qed.

Lemma concat_empty_cons (s : string) (rest : list string) :
  String.concat "" (s :: rest) = s ++ String.concat "" rest.
Proof. destruct rest; simpl; [now rewrite append_nil_r | reflexivity]. Qed.

Lemma dist_reduce_nullish (vals : list Value) (strs : list string) :
  (forall i, is_nullish (Js.at_index vals i) = true) ->
  forall i q p,
    Js.reduce_from (Dist.sql_step vals) i strs (q, p)
    = (q ++ String.concat "" strs, p).
Proof.
  intros Hat. induction strs as [|str strs IH]; intros i q p.
  - simpl. now rewrite append_nil_r.
  - cbn [Js.reduce_from].
    assert (Hstep : Dist.sql_step vals (q, p) str i = (q ++ str, p)).
    { unfold Dist.sql_step. specialize (Hat i).
      destruct (Js.at_index vals i); try discriminate; reflexivity. }
    now rewrite Hstep, IH, concat_empty_cons, append_assoc.
Qed.

Lemma legacy_reduce_nullish (vals : list Value) (strs : list string) :
  (forall i, is_nullish (Js.at_index vals i) = true) ->
  forall i q p,
    Js.reduce_from (Legacy.sql_step vals) i strs (q, p)
    = (q ++ String.concat "" strs, p).
Proof.
  intros Hat. induction strs as [|str strs IH]; intros i q p.
  - simpl. now rewrite append_nil_r.
  - cbn [Js.reduce_from].
    assert (Hstep : Legacy.sql_step vals (q, p) str i = (q ++ str, p)).
    { unfold Legacy.sql_step. specialize (Hat i).
      destruct (Js.at_index vals i); try discriminate; reflexivity. }
    now rewrite Hstep, IH, concat_empty_cons, append_assoc.
Qed.

Lemma legacy_sql_no_values (strs : list string) :
  params (Legacy.sql strs []) = [].
Proof.
  unfold Legacy.sql, Js.reduce. rewrite legacy_reduce_nullish; [reflexivity|].
  intros i. unfold Js.at_index. now destruct i.
Qed.

(** X12.  The parameters of a statement are the values bound for each
    interpolated value, one value after the other in the order of the
    template: the elements of an array (a hole read as [undefined]), the
    values of an object, a string without [sql`], a number or a boolean
    itself, and nothing for [null],
    [undefined], a string with [sql`] and, in the compiled build, a [Raw]
    (which [src/index.js] binds as it is). *)
Theorem sql_params_in_order (strs : list string) (vals : list Value) :
  params (Dist.sql strs vals)
  = flat_map dist_bound_values (firstn (List.length strs) vals)
  /\ params (Legacy.sql strs vals)
     = flat_map legacy_bound_values (firstn (List.length strs) vals).
Proof.
  split; revert strs.
  - induction vals as [|v vals IH]; intros strs.
    + rewrite dist_sql_no_values. now rewrite firstn_nil.
    + destruct strs as [|str strs]; [reflexivity|].
      rewrite dist_sql_cons, params_splice, dist_step_params,
        dist_appended_params, IH. reflexivity.
  - induction vals as [|v vals IH]; intros strs.
    + rewrite legacy_sql_no_values. now rewrite firstn_nil.
    + destruct strs as [|str strs]; [reflexivity|].
      rewrite legacy_sql_cons, params_splice, legacy_step_params, IH.
      reflexivity.
Qed.

Lemma steps_agree values acc str i :
  is_raw (Js.at_index values i) = false ->
  Legacy.sql_step values acc str i = Dist.sql_step values acc str i.
Proof.
  destruct acc as [q p]. unfold Legacy.sql_step, Dist.sql_step.
  destruct (Js.at_index values i); try discriminate; reflexivity.
Qed.

(** X13.  On a template none of whose values is a [Raw], the two builds
    return the same statement. *)
Theorem builds_agree_without_raw (strs : list string) (vals : list Value) :
  Forall (fun v => is_raw v = false) vals ->
  Legacy.sql strs vals = Dist.sql strs vals.
Proof.
  intros Hvals. unfold Legacy.sql, Dist.sql, Js.reduce.
  generalize 0. generalize (@pair string (list Value) "" []).
  induction strs as [|str strs IH]; intros acc i; simpl; [reflexivity|].
  rewrite steps_agree; [apply IH|].
  unfold Js.at_index. destruct (nth_in_or_default i vals VUndefined) as [Hin | ->].
  - rewrite Forall_forall in Hvals. now apply Hvals.
  - reflexivity.
Qed.

Lemma builds_agree_without_raw_witness :
  Forall (fun v => is_raw v = false) [VStr "John"; VArr [VNum 1]; VNull]
  /\ Legacy.sql ["a = "; " AND b IN "; " AND c = "; ""] [VStr "John"; VArr [VNum 1]; VNull]
     = Dist.sql ["a = "; " AND b IN "; " AND c = "; ""] [VStr "John"; VArr [VNum 1]; VNull].
Proof.
  assert (H : Forall (fun v => is_raw v = false) [VStr "John"; VArr [VNum 1]; VNull])
    by (repeat constructor).
  split; [exact H|].
  exact (builds_agree_without_raw ["a = "; " AND b IN "; " AND c = "; ""]
                                  [VStr "John"; VArr [VNum 1]; VNull] H).
Defined.

(** X14.  A template all of whose values are [null] or [undefined] is its
    text: the segments one after the other, with no marker added and no
    parameter.  Both builds. *)
Theorem sql_nullish_values (strs : list string) (vals : list Value) :
  Forall (fun v => is_nullish v = true) vals ->
  Dist.sql strs vals = (String.concat "" strs, [])
  /\ Legacy.sql strs vals = (String.concat "" strs, []).
Proof.
  intros Hvals.
  assert (Hat : forall i, is_nullish (Js.at_index vals i) = true).
  { intros i. unfold Js.at_index.
    destruct (nth_in_or_default i vals VUndefined) as [Hin | ->]; [|reflexivity].
    rewrite Forall_forall in Hvals. now apply Hvals. }
  unfold Dist.sql, Legacy.sql, Js.reduce.
  now rewrite dist_reduce_nullish, legacy_reduce_nullish.
Qed.

Lemma sql_nullish_values_witness :
  Forall (fun v => is_nullish v = true) [VNull; VUndefined]
  /\ Dist.sql ["SELECT * FROM users "; "WHERE 1=1 "; "ORDER BY id"] [VNull; VUndefined]
     = ("SELECT * FROM users WHERE 1=1 ORDER BY id", []).
Proof.
  assert (H : Forall (fun v => is_nullish v = true) [VNull; VUndefined])
    by (repeat constructor).
  split; [exact H|].
  exact (proj1 (sql_nullish_values
                  ["SELECT * FROM users "; "WHERE 1=1 "; "ORDER BY id"]
                  [VNull; VUndefined] H)).
Defined.

Lemma prefix_append (needle s : string) :
  prefix needle s = true <-> exists b, s = needle ++ b.
Proof.
  revert s. induction needle as [|c needle IH]; intros [|d s]; simpl.
  - split; [intros _; now exists "" | reflexivity].
  - split; [intros _; now exists (String d s) | reflexivity].
  - split; [discriminate | intros [b Hb]; discriminate].
  - destruct (ascii_dec c d) as [-> | Hne].
    + rewrite IH. split; intros [b Hb]; exists b; [now rewrite Hb | now injection Hb].
    + split; [discriminate | intros [b Hb]; injection Hb as Hd _; congruence].
Qed.

(** [String.prototype.includes] as modelled: the needle occurs somewhere. *)
Lemma includes_occurs (s needle : string) :
  Js.includes s needle = true <-> exists a b, s = a ++ needle ++ b.
Proof.
  induction s as [|c s IH]; cbn [Js.includes].
  - destruct (prefix needle "") eqn:Hp.
    + split; [intros _ | reflexivity].
      apply prefix_append in Hp as [b Hb]. now exists "", b.
    + split; [discriminate|]. intros (a & b & Hab).
      destruct a; [|discriminate]. simpl in Hab.
      assert (prefix needle "" = true) by (apply prefix_append; now exists b).
      congruence.
  - destruct (prefix needle (String c s)) eqn:Hp.
    + split; [intros _ | reflexivity].
      apply prefix_append in Hp as [b Hb]. now exists "", b.
    + rewrite IH. split.
      * intros (a & b & Hab). exists (String c a), b. simpl. now rewrite Hab.
      * intros (a & b & Hab). destruct a as [|d a].
        -- simpl in Hab.
           assert (prefix needle (String c s) = true)
             by (apply prefix_append; now exists b).
           congruence.
        -- injection Hab as _ Hab. now exists a, b.
Qed.

(** X15.  Which strings are bound.  A string in which [sql`] occurs anywhere
    is not bound and takes the segment before it away with it; every other
    string, the empty one included, is bound as a parameter behind one
    marker.  Both builds. *)
Theorem sql_string_binding (s str1 str2 : string) :
  ((exists a b, s = a ++ "sql`" ++ b) ->
   Dist.sql [str1; str2] [VStr s] = (str2, [])
   /\ Legacy.sql [str1; str2] [VStr s] = (str2, []))
  /\ ((forall a b, s <> a ++ "sql`" ++ b) ->
      Dist.sql [str1; str2] [VStr s] = (str1 ++ "?" ++ str2, [VStr s])
      /\ Legacy.sql [str1; str2] [VStr s] = (str1 ++ "?" ++ str2, [VStr s])).
Proof.
  split.
  - intros Hocc. apply includes_occurs in Hocc.
    unfold Dist.sql, Legacy.sql, Js.reduce; simpl. now rewrite Hocc.
  - intros Hnot.
    assert (Hinc : Js.includes s "sql`" = false).
    { destruct (Js.includes s "sql`") eqn:E; [|reflexivity].
      apply includes_occurs in E as (a & b & Hab). now destruct (Hnot a b). }
    unfold Dist.sql, Legacy.sql, Js.reduce; simpl. rewrite Hinc.
    unfold Dist.sql_step, Legacy.sql_step; simpl.
    now rewrite append_assoc.
Qed.

Lemma sql_string_binding_witness :
  ((exists a b, "x sql`y`" = a ++ "sql`" ++ b)
   /\ Dist.sql ["SELECT "; " FROM t"] [VStr "x sql`y`"] = (" FROM t", []))
  /\ ((forall a b, "" <> a ++ "sql`" ++ b)
      /\ Dist.sql ["WHERE name = "; ""] [VStr ""] = ("WHERE name = ?", [VStr ""])).
Proof.
  assert (H1 : exists a b, "x sql`y`" = a ++ "sql`" ++ b)
    by (exists "x ", "y`"; reflexivity).
  assert (H2 : forall a b, "" <> a ++ "sql`" ++ b)
    by (intros [|c a] b; discriminate).
  split; split; [exact H1 | | exact H2 |].
  - exact (proj1 (proj1 (sql_string_binding "x sql`y`" "SELECT " " FROM t") H1)).
  - exact (proj1 (proj2 (sql_string_binding "" "WHERE name = " "") H2)).
Defined.

(** X16.  A statement is not spliced into a template.  The object a nested
    [sql] call returns is interpolated like any object: the text
    [query = ?, params = ?] and two parameters, the nested query text and
    the nested parameter array.  Both builds. *)
Theorem sql_nested_statement (nested : Statement) (str1 str2 : string) :
  Dist.sql [str1; str2] [statement_object nested]
  = (str1 ++ "query = ?, params = ?" ++ str2,
     [VStr (query nested); VArr (params nested)])
  /\ Legacy.sql [str1; str2] [statement_object nested]
     = (str1 ++ "query = ?, params = ?" ++ str2,
        [VStr (query nested); VArr (params nested)]).
Proof.
  unfold Dist.sql, Legacy.sql, Js.reduce; simpl.
  unfold Dist.sql_step, Legacy.sql_step; simpl.
  now rewrite append_assoc.
Qed.

(** X17.  In [src/index.js] a [Raw], and so every fragment [raw], [join],
    [orderBy], [groupBy], [limit] and [caseWhen] return, is not spliced:
    interpolated anywhere in a template it adds one marker after the segment
    before it and is itself bound as the parameter. *)
Theorem legacy_raw_is_bound
        (strs1 strs2 : list string) (str : string)
        (vals1 vals2 : list Value) (fragment : Value) :
  List.length vals1 = List.length strs1 ->
  is_raw fragment = true ->
  Legacy.sql (strs1 ++ str :: strs2) (vals1 ++ fragment :: vals2)
  = (query (Legacy.sql strs1 vals1) ++ str ++ "?"
       ++ query (Legacy.sql strs2 vals2),
     (params (Legacy.sql strs1 vals1) ++ [fragment]
       ++ params (Legacy.sql strs2 vals2))%list).
Proof.
  intros Hlen Hraw. destruct fragment; try discriminate.
  now rewrite legacy_sql_middle by (exact Hlen || reflexivity).
Qed.

Lemma legacy_raw_is_bound_witness :
  (List.length (@nil Value) = List.length (@nil string)
   /\ is_raw (Clauses.groupBy (Clauses.FieldName "department")) = true)
  /\ Legacy.sql ["SELECT department, COUNT(*) as count FROM users "; ""]
                [Clauses.groupBy (Clauses.FieldName "department")]
     = ("SELECT department, COUNT(*) as count FROM users ?",
        [VRaw "GROUP BY department" None]).
Proof.
  split; [split; reflexivity|].
  exact (legacy_raw_is_bound [] [""] "SELECT department, COUNT(*) as count FROM users "
                             [] [] (Clauses.groupBy (Clauses.FieldName "department"))
                             eq_refl eq_refl).
Defined.

(** ** Sequences of calls on an accumulator *)

Lemma dist_queries_app ts1 ts2 :
  dist_queries (ts1 ++ ts2) = (dist_queries ts1 ++ dist_queries ts2)%list.
Proof. unfold dist_queries. apply map_app. Qed.

Lemma dist_params_app ts1 ts2 :
  dist_params (ts1 ++ ts2) = (dist_params ts1 ++ dist_params ts2)%list.
Proof. unfold dist_params. now rewrite map_app, concat_app. Qed.

Lemma legacy_queries_app ts1 ts2 :
  legacy_queries (ts1 ++ ts2) = (legacy_queries ts1 ++ legacy_queries ts2)%list.
Proof. unfold legacy_queries. apply map_app. Qed.

Lemma legacy_params_app ts1 ts2 :
  legacy_params (ts1 ++ ts2) = (legacy_params ts1 ++ legacy_params ts2)%list.
Proof. unfold legacy_params. now rewrite map_app, concat_app. Qed.

Lemma dist_calls_from (ops : list Op) : forall before,
  dist_calls ops (mkTx (dist_queries before) (dist_params before))
  = Returns tt (mkTx (dist_queries (pending before ops))
                     (dist_params (pending before ops))).
Proof.
  induction ops as [|[strings values| |] ops IH]; intros before; simpl.
  - reflexivity.
  - unfold bind, Dist.add; simpl.
    destruct (Dist.sql strings values) as [q p] eqn:E.
    rewrite <- IH, dist_queries_app, dist_params_app.
    unfold dist_queries, dist_params; simpl. rewrite E; simpl.
    now rewrite app_nil_r.
  - unfold bind, Dist.commit, ret; simpl. apply IH.
  - unfold bind, Dist.rollback. apply (IH []).
Qed.

(** X18.  Whatever sequence of [add], [commit] and [rollback] calls an
    accumulator of the compiled build has gone through, a [commit()] returns
    the statements added since the last [rollback()] (all of them if there
    was none), joined in the order they were added; earlier [commit()] calls
    change nothing. *)
Theorem transaction_after_calls (ops : list Op) :
  (dist_calls ops ;; Dist.commit)%call Dist.transaction
  = Returns (Js.join (dist_queries (pending [] ops)) "; ",
             dist_params (pending [] ops))
            (mkTx (dist_queries (pending [] ops))
                  (dist_params (pending [] ops))).
Proof.
  unfold bind. change Dist.transaction with (mkTx (dist_queries []) (dist_params [])).
  now rewrite dist_calls_from.
Qed.

(** X19.  Committing two non-empty batches added one after the other gives
    the text of the first batch, a semicolon and a space, and the text of
    the second, with the parameters of the first followed by those of the
    second.  Both builds. *)
Theorem transaction_batches (batch1 batch2 : list (list string * list Value)) :
  batch1 <> [] -> batch2 <> [] ->
  (Dist.add_all (batch1 ++ batch2) ;; Dist.commit)%call Dist.transaction
  = Returns (Js.join (dist_queries batch1) "; " ++ "; "
               ++ Js.join (dist_queries batch2) "; ",
             (dist_params batch1 ++ dist_params batch2)%list)
            (mkTx (dist_queries batch1 ++ dist_queries batch2)
                  (dist_params batch1 ++ dist_params batch2))
  /\ (Legacy.add_all (batch1 ++ batch2) ;; Legacy.commit)%call Legacy.transaction
     = Returns (Js.join (legacy_queries batch1) "; " ++ "; "
                  ++ Js.join (legacy_queries batch2) "; ",
                (legacy_params batch1 ++ legacy_params batch2)%list)
               (mkTx (legacy_queries batch1 ++ legacy_queries batch2)
                     (legacy_params batch1 ++ legacy_params batch2)).
Proof.
  intros H1 H2. split; unfold bind.
  - rewrite dist_add_all_from. unfold Dist.commit; simpl.
    rewrite dist_queries_app, dist_params_app, join_app; [reflexivity | |].
    + destruct batch1; [contradiction | discriminate].
    + destruct batch2; [contradiction | discriminate].
  - rewrite legacy_add_all_from. unfold Legacy.commit; simpl.
    rewrite legacy_queries_app, legacy_params_app, join_app; [reflexivity | |].
    + destruct batch1; [contradiction | discriminate].
    + destruct batch2; [contradiction | discriminate].
Qed.

Lemma transaction_batches_witness :
  ([(["INSERT INTO users (name) VALUES ("; ")"], [VStr "John"])] <> []
   /\ [(["UPDATE stats SET count = count + 1"], @nil Value)] <> [])
  /\ (Dist.add_all [(["INSERT INTO users (name) VALUES ("; ")"], [VStr "John"]);
                    (["UPDATE stats SET count = count + 1"], [])] ;;
      Dist.commit)%call Dist.transaction
     = Returns ("INSERT INTO users (name) VALUES (?); UPDATE stats SET count = count + 1",
                [VStr "John"])
               (mkTx ["INSERT INTO users (name) VALUES (?)";
                      "UPDATE stats SET count = count + 1"]
                     [VStr "John"]).
Proof.
  split; [split; discriminate|].
  refine (proj1 (transaction_batches
                   [(["INSERT INTO users (name) VALUES ("; ")"], [VStr "John"])]
                   [(["UPDATE stats SET count = count + 1"], [])] _ _));
    discriminate.
Defined.
